(** * dndg: the Director, its snapshots, the dice roller and the character model

    A shallow embedding of [src/main.py] (the project skeleton whose sections
    are [core/dm.py], [core/state.py], [core/character.py], [core/party.py],
    [core/dice.py], [adapters/persistence.py] and [content/story_setup.py]) and
    of [src/models/character.py], followed by the properties of the
    specification that concern them.

    Python objects are mutable and exceptions leave the mutations made so far
    in place, so stateful methods are written in a monad [M S A] whose result
    keeps the state on both exits. *)

From Stdlib Require Import ZArith List String Ascii Bool Lia QArith Qround.
From Stdlib Require Import Decimal DecimalString.
Import ListNotations.
Local Open Scope string_scope.
Local Open Scope list_scope.
Local Open Scope Z_scope.
Set Warnings "-register-all".

(** ** Python values, exceptions and the state-and-exception monad *)

Module Py.

(** The exceptions the modelled code can raise.  [ValueError] and
    [RuntimeError] carry their message, [KeyError] the missing key;
    [ParseError] stands for what the JSON and YAML parsers raise on a text
    that is not a document. *)
Inductive exn : Type :=
| ValueError (msg : string)
| RuntimeError (msg : string)
| IndexError
| KeyError (key : string)
| TypeError
| AttributeError
| OSError
| ParseError.

Inductive outcome (A : Type) : Type :=
| Returned (a : A)
| Raised (e : exn).
Arguments Returned {A} a.
Arguments Raised {A} e.

(** A method over a mutable state [S]: the final state is returned whether the
    call returns or raises. *)
Definition M (S A : Type) : Type := S -> outcome A * S.

Definition ret {S A} (a : A) : M S A := fun s => (Returned a, s).

Definition raise {S A} (e : exn) : M S A := fun s => (Raised e, s).

Definition bind {S A B} (m : M S A) (k : A -> M S B) : M S B :=
  fun s =>
    match m s with
    | (Returned a, s') => k a s'
    | (Raised e, s') => (Raised e, s')
    end.

Definition get {S} : M S S := fun s => (Returned s, s).

Definition put {S} (s : S) : M S unit := fun _ => (Returned tt, s).

(** A computation that cannot touch the state. *)
Definition lift {S A} (o : outcome A) : M S A := fun s => (o, s).

(** The same bind for pure code that may raise. *)
Definition obind {A B} (o : outcome A) (k : A -> outcome B) : outcome B :=
  match o with
  | Returned a => k a
  | Raised e => Raised e
  end.

Fixpoint omap {A B} (f : A -> outcome B) (l : list A) : outcome (list B) :=
  match l with
  | [] => Returned []
  | x :: r => obind (f x) (fun y => obind (omap f r) (fun ys => Returned (y :: ys)))
  end.

(** Values as [json.load], [yaml.safe_load] and [dataclasses.asdict] produce
    them, and the two dataclasses that a [Character] field may hold.  A [dict]
    is an association list that binds each key once; its keys are strings, as
    in every document and keyword dictionary of the program.  Floats are left
    out. *)
Inductive pyval : Type :=
| PNone
| PBool (b : bool)
| PInt (n : Z)
| PStr (s : string)
| PList (xs : list pyval)
| PDict (kv : list (string * pyval))
| PStats (str dex con int wis cha : pyval)
| PInventory (items gold : pyval).

Fixpoint lookup {A} (k : string) (kv : list (string * A)) : option A :=
  match kv with
  | [] => None
  | (k', v) :: r => if String.eqb k k' then Some v else lookup k r
  end.

(** [data[key]] for a string key. *)
Definition getitem (data : pyval) (key : string) : outcome pyval :=
  match data with
  | PDict kv =>
      match lookup key kv with
      | Some v => Returned v
      | None => Raised (KeyError key)
      end
  | _ => Raised TypeError
  end.

Definition chars (s : string) : list pyval :=
  map (fun c => PStr (String c EmptyString)) (list_ascii_of_string s).

(** The elements a [for] loop sees: the items of a list, the keys of a dict,
    the characters of a string; other values are not iterable. *)
Definition iter (v : pyval) : outcome (list pyval) :=
  match v with
  | PList xs => Returned xs
  | PDict kv => Returned (map (fun p => PStr (fst p)) kv)
  | PStr s => Returned (chars s)
  | _ => Raised TypeError
  end.

(** [seq[i]] on a list: a negative index counts from the end. *)
Definition list_getitem {A} (l : list A) (i : Z) : outcome A :=
  let n := Z.of_nat (List.length l) in
  let j := if i <? 0 then i + n else i in
  if (j <? 0) || (n <=? j) then Raised IndexError
  else match nth_error l (Z.to_nat j) with
       | Some x => Returned x
       | None => Raised IndexError
       end.

(** [dataclasses.asdict] below the top level: dataclass instances become
    dicts of their fields, lists and dicts are rebuilt, the rest is copied. *)
Fixpoint asdict_inner (v : pyval) : pyval :=
  match v with
  | PList xs => PList (map asdict_inner xs)
  | PDict kv => PDict (map (fun p => (fst p, asdict_inner (snd p))) kv)
  | PStats s d c i w h =>
      PDict [("str", asdict_inner s); ("dex", asdict_inner d);
             ("con", asdict_inner c); ("int", asdict_inner i);
             ("wis", asdict_inner w); ("cha", asdict_inner h)]
  | PInventory it g =>
      PDict [("items", asdict_inner it); ("gold", asdict_inner g)]
  | _ => v
  end.

(** [cls( **data )] for a dataclass whose fields are [fields], each with its
    default if it has one: the keyword names must all be fields, and a field
    with no default must be given.  The result lists the field values in
    declaration order. *)
Fixpoint fill (fields : list (string * option pyval)) (kv : list (string * pyval))
  : outcome (list pyval) :=
  match fields with
  | [] => Returned []
  | (f, dflt) :: r =>
      obind (match lookup f kv, dflt with
             | Some v, _ => Returned v
             | None, Some d => Returned d
             | None, None => Raised TypeError
             end)
            (fun v => obind (fill r kv) (fun vs => Returned (v :: vs)))
  end.

Definition known (fields : list (string * option pyval)) (k : string) : bool :=
  match lookup k fields with Some _ => true | None => false end.

Definition construct (fields : list (string * option pyval)) (data : pyval)
  : outcome (list pyval) :=
  match data with
  | PDict kv =>
      if forallb (fun p => known fields (fst p)) kv then fill fields kv
      else Raised TypeError
  | _ => Raised TypeError
  end.

End Py.

Declare Scope py_scope.
Delimit Scope py_scope with py.
Notation "x <- m ;; k" := (Py.bind m (fun x => k))
  (at level 100, m at next level, right associativity) : py_scope.
Notation "m ;;; k" := (Py.bind m (fun _ => k))
  (at level 100, right associativity) : py_scope.

(** ** core/dice.py *)

Module Dice.
Import Py.
Local Open Scope py_scope.

(** The fragment of [re] patterns that [_roll_re] is written in.  Strings are
    sequences of characters with code points below 256; among those [\d]
    matches exactly the digits 0 to 9. *)
Inductive regex : Type :=
| Digit
| Lit (c : ascii)
| OneOf (cs : list ascii)
| Seq (r1 r2 : regex)
| Plus (r : regex)
| Opt (r : regex).

Definition is_digit (c : ascii) : bool :=
  ((48 <=? nat_of_ascii c) && (nat_of_ascii c <=? 57))%nat.

(** What it means for a whole string to match a pattern. *)
Inductive matches : regex -> string -> Prop :=
| m_digit c : is_digit c = true -> matches Digit (String c EmptyString)
| m_lit c : matches (Lit c) (String c EmptyString)
| m_oneof c cs : In c cs -> matches (OneOf cs) (String c EmptyString)
| m_seq r1 r2 s1 s2 :
    matches r1 s1 -> matches r2 s2 -> matches (Seq r1 r2) (s1 ++ s2)%string
| m_plus_one r s : matches r s -> matches (Plus r) s
| m_plus_more r s1 s2 :
    matches r s1 -> matches (Plus r) s2 -> matches (Plus r) (s1 ++ s2)%string
| m_opt_none r : matches (Opt r) EmptyString
| m_opt_some r s : matches r s -> matches (Opt r) s.

(** [(?P<num>\d+)d(?P<sides>\d+)(?P<mod>[+-]\d+)?] *)
Definition _roll_re : regex :=
  Seq (Plus Digit)
      (Seq (Lit "d")
           (Seq (Plus Digit)
                (Opt (Seq (OneOf ["+"; "-"]%char) (Plus Digit))))).

(** The longest run of digits at the front of a string, and what follows. *)
Fixpoint span_digits (s : string) : string * string :=
  match s with
  | EmptyString => (EmptyString, EmptyString)
  | String c r =>
      if is_digit c
      then let (d, rest) := span_digits r in (String c d, rest)
      else (EmptyString, s)
  end.

Definition is_sign (c : ascii) : bool := Ascii.eqb c "+" || Ascii.eqb c "-".

(** [_roll_re.fullmatch(expr)]: [None] when there is no match, else the groups
    [num], [sides] and [mod] ([mod] is [None] when the optional group took no
    part).  A digit run that must be followed by a non-digit can only be the
    longest one, so the parse is deterministic. *)
Definition fullmatch (expr : string) : option (string * string * option string) :=
  let (num, r1) := span_digits expr in
  match num, r1 with
  | String _ _, String c r2 =>
      if Ascii.eqb c "d"
      then let (sides, r3) := span_digits r2 in
           match sides, r3 with
           | String _ _, EmptyString => Some (num, sides, None)
           | String _ _, String c' r4 =>
               if is_sign c'
               then let (m, r5) := span_digits r4 in
                    match m, r5 with
                    | String _ _, EmptyString => Some (num, sides, Some (String c' m))
                    | _, _ => None
                    end
               else None
           | EmptyString, _ => None
           end
      else None
  | _, _ => None
  end.

Definition digit_value (c : ascii) : Z := Z.of_nat (nat_of_ascii c) - 48.

Fixpoint int_digits (acc : Z) (s : string) : option Z :=
  match s with
  | EmptyString => Some acc
  | String c r =>
      if is_digit c then int_digits (10 * acc + digit_value c) r else None
  end.

(** [str(z)], also what [%d] prints. *)
Definition str_of_int (z : Z) : string := NilZero.string_of_int (Z.to_int z).

(** What the interpreter is set to for the conversion of long numerals:
    [sys.get_int_max_str_digits()] (4300 unless changed, 0 for no limit; the
    releases before the limit was introduced behave as with 0), and the
    message of the [ValueError] that [int] raises for a numeral of that many
    digits, whose wording differs between releases. *)
Class IntLimit : Type := {
  int_max_str_digits : nat;
  int_limit_message : nat -> string
}.

(** Numerals of up to 640 digits are converted whatever the limit is. *)
Definition int_str_digits_threshold : nat := 640.

(** Whether [int] refuses a run of digits for its length; leading zeros
    count. *)
Definition over_limit {L : IntLimit} (d : string) : bool :=
  ((int_str_digits_threshold <? String.length d)
   && (0 <? int_max_str_digits)
   && (int_max_str_digits <? String.length d))%nat.

(** [int(s)] for a string: an optional sign and at least one decimal digit,
    no more of them than the limit allows.  Python's [int] takes a little more
    (surrounding blanks, underscores between digits), which [roll] never
    passes, see [int_of_str_digits]. *)
Definition int_of_str {L : IntLimit} (s : string) : outcome Z :=
  let invalid := Raised (ValueError "invalid literal for int() with base 10") in
  let unsigned (d : string) : outcome Z :=
    match d with
    | EmptyString => invalid
    | _ =>
        match int_digits 0 d with
        | Some n =>
            if over_limit d
            then Raised (ValueError (int_limit_message (String.length d)))
            else Returned n
        | None => invalid
        end
    end in
  match s with
  | String "+" d => unsigned d
  | String "-" d => obind (unsigned d) (fun n => Returned (- n))
  | _ => unsigned s
  end.

(** [random.Random]: a generator state and the library's draw of a number
    below [n], from which [randint] is built (as [random.py] does).  [seed]
    is [random.Random(seed)]; for [None] the library seeds from the system. *)
Class Random : Type := {
  rng : Type;
  seed : option Z -> rng;
  randbelow : rng -> Z -> Z * rng
}.

(** The library's contract for [_randbelow]. *)
Definition randbelow_in_range (R : Random) : Prop :=
  forall (g : rng) (n : Z), 0 < n -> 0 <= fst (randbelow g n) < n.

Section Roller.
Context {R : Random} {L : IntLimit}.

(** [rng.randint(a, b)] is [randrange(a, b + 1)]: it raises on an empty range
    before drawing anything, with the start, the stop and the width in the
    message (as [random.py] of Python 3.10 words it). *)
Definition randint (a b : Z) : M rng Z :=
  fun g =>
    let width := b + 1 - a in
    if 0 <? width
    then let (k, g') := randbelow g width in (Returned (a + k), g')
    else (Raised (ValueError ("empty range for randrange() ("
                              ++ str_of_int a ++ ", " ++ str_of_int (b + 1)
                              ++ ", " ++ str_of_int width ++ ")")%string), g).

Record DiceRoller : Type := { _rng : rng }.

(** [DiceRoller.__init__] *)
Definition init (seed_ : option Z) : DiceRoller := {| _rng := seed seed_ |}.

(** Runs a method of the generator on the roller's [_rng] attribute. *)
Definition on_rng {A} (m : M rng A) : M DiceRoller A :=
  fun self => let (o, g) := m (_rng self) in (o, {| _rng := g |}).

(** [[self._rng.randint(1, sides) for _ in range(num)]] *)
Fixpoint randints (num : nat) (sides : Z) : M rng (list Z) :=
  match num with
  | O => ret []
  | S k =>
      x <- randint 1 sides ;;
      xs <- randints k sides ;;
      ret (x :: xs)
  end.

(** The builtin [sum]. *)
Definition sum (l : list Z) : Z := fold_left Z.add l 0.

(** [DiceRoller.roll] *)
Definition roll (expr : string) : M DiceRoller (Z * list Z) :=
  match fullmatch expr with
  | None => raise (ValueError ("Invalid dice expression: " ++ expr)%string)
  | Some (num_s, sides_s, mod_s) =>
      num <- lift (int_of_str num_s) ;;
      sides <- lift (int_of_str sides_s) ;;
      mod_ <- lift (match mod_s with
                    | Some s => int_of_str s
                    | None => Returned 0
                    end) ;;
      rolls <- on_rng (randints (Z.to_nat num) sides) ;;
      ret (sum rolls + mod_, rolls)
  end.

(** [DiceRoller.get_state] and [DiceRoller.set_state] *)
Definition get_state (self : DiceRoller) : rng := _rng self.

Definition set_state (state : rng) : M DiceRoller unit :=
  fun _ => (Returned tt, {| _rng := state |}).

End Roller.

(** A small linear congruential generator, to run the roller on. *)
Definition lcg_next (g : Z) : Z := (1103515245 * g + 12345) mod 2147483648.

Definition lcg_below (g n : Z) : Z * Z :=
  let g' := lcg_next g in ((g' / 65536) mod n, g').

Definition lcg : Random :=
  {| rng := Z;
     seed := fun s => match s with Some z => z | None => 0 end;
     randbelow := lcg_below |}.

(** The interpreter as it comes: the default limit, and the message as recent
    releases of CPython 3.10 word it. *)
Definition cpython310 : IntLimit :=
  {| int_max_str_digits := 4300;
     int_limit_message := fun digits =>
       ("Exceeds the limit (4300) for integer string conversion: value has "
        ++ str_of_int (Z.of_nat digits)
        ++ " digits; use sys.set_int_max_str_digits() to increase the limit")%string |}.

End Dice.

(** ** content/story_setup.py *)

Module Story.
Import Py.
Local Open Scope py_scope.

(** The annotations of a dataclass are not checked, so a field holds whatever
    value the constructor was given. *)
Record Scene : Type := {
  id : pyval;
  text : pyval;
  monsters : pyval;
  choices : pyval
}.

Definition Scene_fields : list (string * option pyval) :=
  [("id", None); ("text", None);
   ("monsters", Some (PList [])); ("choices", Some (PDict []))].

(** [Scene( **s )] *)
Definition Scene_new (s : pyval) : outcome Scene :=
  obind (construct Scene_fields s)
        (fun vs =>
           match vs with
           | [i; t; m; c] =>
               Returned {| id := i; text := t; monsters := m; choices := c |}
           | _ => Raised TypeError
           end).

(** What the Director and its scenes do that a player can see: each of these
    calls prints one message. *)
Inductive event : Type :=
| EnterScene (s : Scene)
| WinScreen
| LoseScreen.

(** [Scene.enter]: prints the text; neither the party nor the Director is
    touched. *)
Definition enter {S P} (self : Scene) (party : P) : M (S * list event) unit :=
  fun w => (Returned tt, (fst w, snd w ++ [EnterScene self])).

Record StorySetup : Type := { scenes : list Scene }.

Definition Scene_asdict (s : Scene) : pyval :=
  PDict [("id", asdict_inner (id s)); ("text", asdict_inner (text s));
         ("monsters", asdict_inner (monsters s));
         ("choices", asdict_inner (choices s))].

(** [StorySetup.to_dict] *)
Definition to_dict (self : StorySetup) : pyval :=
  PDict [("scenes", PList (map Scene_asdict (scenes self)))].

(** [StorySetup.from_dict] *)
Definition from_dict (data : pyval) : outcome StorySetup :=
  obind (getitem data "scenes") (fun v =>
  obind (iter v) (fun items =>
  obind (omap Scene_new items) (fun l =>
  Returned {| scenes := l |}))).

(** [StorySetup.load]; [safe_load] opens the file and parses its YAML. *)
Definition load (safe_load : string -> outcome pyval) (path : string)
  : outcome StorySetup :=
  obind (safe_load path) (fun raw =>
  obind (getitem raw "scenes") (fun v =>
  obind (iter v) (fun items =>
  obind (omap Scene_new items) (fun l =>
  Returned {| scenes := l |})))).

End Story.

(** ** core/character.py *)

Module Character.
Import Py.

(** The class-level defaults [Stats()] and [Inventory(items=[])] are taken as
    the interpreters up to Python 3.10 take them: one instance, the default of
    every character made without the argument. *)

(** [Stats.modifier] *)
Definition Stats_modifier (self : pyval) (score : Z) : Z := (score - 10) / 2.

Record Character : Type := {
  name : pyval;
  stats : pyval;
  hp : pyval;
  xp : pyval;
  inventory : pyval
}.

Definition Stats_default : pyval :=
  PStats (PInt 10) (PInt 10) (PInt 10) (PInt 10) (PInt 10) (PInt 10).

Definition fields : list (string * option pyval) :=
  [("name", None); ("stats", Some Stats_default); ("hp", Some (PInt 10));
   ("xp", Some (PInt 0)); ("inventory", Some (PInventory (PList []) (PInt 0)))].

(** [Character.to_dict] *)
Definition to_dict (self : Character) : pyval :=
  PDict [("name", asdict_inner (name self)); ("stats", asdict_inner (stats self));
         ("hp", asdict_inner (hp self)); ("xp", asdict_inner (xp self));
         ("inventory", asdict_inner (inventory self))].

(** [Character.from_dict] *)
Definition from_dict (data : pyval) : outcome Character :=
  obind (construct fields data)
        (fun vs =>
           match vs with
           | [n; s; h; x; i] =>
               Returned {| name := n; stats := s; hp := h; xp := x; inventory := i |}
           | _ => Raised TypeError
           end).

(** [ch.stats.modifier(score)]: the attribute lookup fails when [stats] is
    not a [Stats] instance. *)
Definition stats_modifier (ch : Character) (score : Z) : outcome Z :=
  match stats ch with
  | PStats _ _ _ _ _ _ => Returned (Stats_modifier (stats ch) score)
  | _ => Raised AttributeError
  end.

End Character.

(** ** core/party.py *)

Module Party.
Import Py.

(** [class Party(list)] *)
Definition t : Type := list Character.Character.

(** [Party.to_dict] *)
Definition to_dict (self : t) : pyval :=
  PDict [("members", PList (map Character.to_dict self))].

(** [Party.from_dict] *)
Definition from_dict (data : pyval) : outcome t :=
  obind (getitem data "members") (fun v =>
  obind (iter v) (fun items =>
  omap Character.from_dict items)).

(** The truth value of a party in a condition: that of a list. *)
Definition truthy (self : t) : bool :=
  match self with [] => false | _ :: _ => true end.

(** [v > 0]: integers compare with 0, and so do booleans, which are
    integers; no other value of the model is ordered against an integer. *)
Definition gt_zero (v : pyval) : outcome bool :=
  match v with
  | PInt n => Returned (0 <? n)
  | PBool b => Returned b
  | _ => Raised TypeError
  end.

(** [Party.any_alive]: [any] stops at the first member that is alive, so the
    members after it are not looked at. *)
Fixpoint any_alive (self : t) : outcome bool :=
  match self with
  | [] => Returned false
  | ch :: rest =>
      obind (gt_zero (Character.hp ch))
            (fun alive => if alive then Returned true else any_alive rest)
  end.

End Party.

(** ** core/dm.py

    [DM.save] and [DM.load] only pass a snapshot between [State] below and the
    persistence adapter; the snapshot bridge itself is in [State]. *)

Module Director.
Import Py.
Local Open Scope py_scope.

Section WithRandom.
Context {R : Dice.Random}.

Record DM : Type := {
  dice : Dice.DiceRoller;
  ruleset : pyval;
  party : option Party.t;
  story : option Story.StorySetup;
  current_scene_idx : Z
}.

(** [DM.__init__] *)
Definition init (rng_seed : option Z) : DM :=
  {| dice := Dice.init rng_seed;
     ruleset := PNone;
     party := None;
     story := None;
     current_scene_idx := -1 |}.

Definition set_party (p : option Party.t) (self : DM) : DM :=
  {| dice := dice self; ruleset := ruleset self; party := p;
     story := story self; current_scene_idx := current_scene_idx self |}.

Definition set_story (s : option Story.StorySetup) (self : DM) : DM :=
  {| dice := dice self; ruleset := ruleset self; party := party self;
     story := s; current_scene_idx := current_scene_idx self |}.

Definition set_current_scene_idx (i : Z) (self : DM) : DM :=
  {| dice := dice self; ruleset := ruleset self; party := party self;
     story := story self; current_scene_idx := i |}.

Definition set_dice (d : Dice.DiceRoller) (self : DM) : DM :=
  {| dice := d; ruleset := ruleset self; party := party self;
     story := story self; current_scene_idx := current_scene_idx self |}.

(** A Director together with what it has shown so far. *)
Definition World : Type := (DM * list Story.event)%type.

Definition self_ : M World DM := fun w => (Returned (fst w), w).

Definition assign (f : DM -> DM) : M World unit :=
  fun w => (Returned tt, (f (fst w), snd w)).

(** [DM.win_screen] and [DM.lose_screen] *)
Definition win_screen : M World unit :=
  fun w => (Returned tt, (fst w, snd w ++ [Story.WinScreen])).

Definition lose_screen : M World unit :=
  fun w => (Returned tt, (fst w, snd w ++ [Story.LoseScreen])).

(** [DM.start] *)
Definition start (safe_load : string -> outcome pyval) (story_path : string)
  : M World unit :=
  st <- lift (Story.load safe_load story_path) ;;
  assign (set_story (Some st)) ;;;
  assign (set_party (Some [])) ;;;
  assign (set_current_scene_idx 0).

(** [DM.play_next] *)
Definition play_next : M World unit :=
  self <- self_ ;;
  match story self, party self with
  | Some st, Some p =>
      scene <- lift (list_getitem (Story.scenes st) (current_scene_idx self)) ;;
      Story.enter scene p ;;;
      assign (set_current_scene_idx (current_scene_idx self + 1)) ;;;
      self' <- self_ ;;
      if Z.of_nat (List.length (Story.scenes st)) <=? current_scene_idx self'
      then win_screen
      else ret tt
  | _, _ => raise (RuntimeError "DM.start() must be called first.")
  end.

(** [n] calls of [play_next] in a row, as the command loop makes them; an
    exception ends the run. *)
Fixpoint play_times (n : nat) : M World unit :=
  match n with
  | O => ret tt
  | S k => play_next ;;; play_times k
  end.

End WithRandom.
End Director.

(** ** core/state.py *)

Module State.
Import Py.
Local Open Scope py_scope.

(** The snapshot.  Its annotations are not checked: a snapshot taken from a
    Director holds an integer and a generator state in its last two fields,
    one read from a document holds whatever the document has there. *)
Record GameState (I G : Type) : Type := {
  party : pyval;
  story_state : pyval;
  current_scene_idx : I;
  rng_state : G
}.
Arguments party {I G} _.
Arguments story_state {I G} _.
Arguments current_scene_idx {I G} _.
Arguments rng_state {I G} _.

Definition fields : list (string * option pyval) :=
  [("party", None); ("story_state", None);
   ("current_scene_idx", None); ("rng_state", None)].

(** [GameState.from_dict], through [_dataclass_from_dict] *)
Definition from_dict (data : pyval) : outcome (GameState pyval pyval) :=
  obind (construct fields data)
        (fun vs =>
           match vs with
           | [p; s; i; g] =>
               Returned {| party := p; story_state := s;
                           current_scene_idx := i; rng_state := g |}
           | _ => Raised TypeError
           end).

(** [GameState.to_dict], on a snapshot whose four fields are values of the
    model, as one read from a document is. *)
Definition to_dict (self : GameState pyval pyval) : pyval :=
  PDict [("party", asdict_inner (party self));
         ("story_state", asdict_inner (story_state self));
         ("current_scene_idx", asdict_inner (current_scene_idx self));
         ("rng_state", asdict_inner (rng_state self))].

Section WithRandom.
Context {R : Dice.Random}.

(** [GameState.from_dm].  The conditions test the truth value of the party
    (a list) and of the story (an object that is always true). *)
Definition from_dm (dm : Director.DM) : GameState Z Dice.rng :=
  {| party := match Director.party dm with
              | Some p => if Party.truthy p then Party.to_dict p else PDict []
              | None => PDict []
              end;
     story_state := match Director.story dm with
                    | Some s => Story.to_dict s
                    | None => PDict []
                    end;
     current_scene_idx := Director.current_scene_idx dm;
     rng_state := Dice.get_state (Director.dice dm) |}.

Definition assign (f : Director.DM -> Director.DM) : M Director.DM unit :=
  fun dm => (Returned tt, f dm).

(** [GameState.apply_to_dm] *)
Definition apply_to_dm (self : GameState Z Dice.rng) : M Director.DM unit :=
  p <- lift (Party.from_dict (party self)) ;;
  assign (Director.set_party (Some p)) ;;;
  s <- lift (Story.from_dict (story_state self)) ;;
  assign (Director.set_story (Some s)) ;;;
  assign (Director.set_current_scene_idx (current_scene_idx self)) ;;;
  (fun dm =>
     let (o, d) := Dice.set_state (rng_state self) (Director.dice dm) in
     (o, Director.set_dice d dm)).

End WithRandom.
End State.

(** ** adapters/persistence.py *)

Module Persistence.
Import Py.

(** [Serializer.load]; [json_load] opens the file and parses its JSON. *)
Definition load (json_load : string -> outcome pyval) (path : string)
  : outcome (State.GameState pyval pyval) :=
  obind (json_load path) State.from_dict.

End Persistence.

(** ** models/character.py *)

Module Models.
Import Py.
Local Open Scope py_scope.

Inductive Ability : Type := STR | DEX | CON | INT | WIS | CHA.

(** [Ability.list] *)
Definition Ability_list : list Ability := [STR; DEX; CON; INT; WIS; CHA].

Definition Ability_value (a : Ability) : string :=
  match a with
  | STR => "STR" | DEX => "DEX" | CON => "CON"
  | INT => "INT" | WIS => "WIS" | CHA => "CHA"
  end.

Definition Ability_eqb (a b : Ability) : bool :=
  String.eqb (Ability_value a) (Ability_value b).

(** [ability_modifier]; [//] rounds toward minus infinity, as [Z.div] does
    for a positive divisor. *)
Definition ability_modifier (score : Z) : Z := (score - 10) / 2.

Record Character : Type := {
  name : string;
  race : string;
  char_class : string;
  level : Z;
  abilities : list (Ability * Z);
  max_hp : option Z;
  proficiency_bonus : Z
}.

Definition default_level : Z := 1.

Definition default_abilities : list (Ability * Z) :=
  map (fun a => (a, 10)) Ability_list.

(** [Character._sync_proficiency_bonus] *)
Definition _sync_proficiency_bonus : M Character unit :=
  fun self =>
    (Returned tt,
     {| name := name self; race := race self; char_class := char_class self;
        level := level self; abilities := abilities self; max_hp := max_hp self;
        proficiency_bonus := 2 + (level self - 1) / 4 |}).

(** [Character.__post_init__] *)
Definition __post_init__ : M Character unit :=
  self <- get ;;
  if level self <? 1 then raise (ValueError "level must be >= 1")
  else _sync_proficiency_bonus.

(** [Character(...)]: the generated [__init__] stores the arguments and calls
    [__post_init__]; [proficiency_bonus] is not an argument and has no value
    before that call, so the object exists only if the call returns. *)
Definition new (name_ race_ char_class_ : string) (level_ : Z)
  (abilities_ : list (Ability * Z)) (max_hp_ : option Z) : outcome Character :=
  match __post_init__
          {| name := name_; race := race_; char_class := char_class_;
             level := level_; abilities := abilities_; max_hp := max_hp_;
             proficiency_bonus := 0 |} with
  | (Returned _, self) => Returned self
  | (Raised e, _) => Raised e
  end.

Fixpoint abilities_get (d : list (Ability * Z)) (a : Ability) : outcome Z :=
  match d with
  | [] => Raised (KeyError (Ability_value a))
  | (b, v) :: r => if Ability_eqb a b then Returned v else abilities_get r a
  end.

(** [Character.ability_mod] and the [initiative] property *)
Definition ability_mod (self : Character) (ability : Ability) : outcome Z :=
  obind (abilities_get (abilities self) ability)
        (fun score => Returned (ability_modifier score)).

Definition initiative (self : Character) : outcome Z := ability_mod self DEX.

(** [Character.level_up] *)
Definition level_up : M Character unit :=
  (fun self =>
     (Returned tt,
      {| name := name self; race := race self; char_class := char_class self;
         level := level self + 1; abilities := abilities self;
         max_hp := max_hp self; proficiency_bonus := proficiency_bonus self |})) ;;;
  _sync_proficiency_bonus.

(** [n] calls of [level_up] in a row. *)
Fixpoint level_ups (n : nat) : M Character unit :=
  match n with
  | O => ret tt
  | S k => level_up ;;; level_ups k
  end.

End Models.

(** ** The notions the specification states its properties with *)

Module Contract.
Import Py.

Section WithRandom.
Context {R : Dice.Random}.

(** The states of the scene-progression machine, read off a Director's
    fields: it is uninitialised until both the story and the party are set
    (the test [play_next] makes), and complete once the cursor has reached the
    scene count (the test that triggers the win screen). *)
Inductive phase : Type := Uninitialized | Active | Complete.

Definition phase_of (dm : Director.DM) : phase :=
  match Director.story dm, Director.party dm with
  | Some st, Some _ =>
      if Z.of_nat (List.length (Story.scenes st)) <=? Director.current_scene_idx dm
      then Complete else Active
  | _, _ => Uninitialized
  end.

(** How many times the win behaviour has run. *)
Definition wins (log : list Story.event) : nat :=
  List.length (filter (fun e => match e with Story.WinScreen => true | _ => false end) log).

(** The Director states that a session can be in: a new Director, then any
    number of [start] and [play_next] calls (failing calls included), of
    party changes by the character-creation step, of dice rolls, and of
    restorations of a snapshot taken from such a Director. *)
Inductive reachable : Director.World -> Prop :=
| reach_init seed : reachable (Director.init seed, [])
| reach_start w safe_load path :
    reachable w -> reachable (snd (Director.start safe_load path w))
| reach_play_next w :
    reachable w -> reachable (snd (Director.play_next w))
| reach_party w p p' :
    reachable w -> Director.party (fst w) = Some p ->
    reachable (Director.set_party (Some p') (fst w), snd w)
| reach_dice w d :
    reachable w -> reachable (Director.set_dice d (fst w), snd w)
| reach_restore w w' :
    reachable w -> reachable w' ->
    reachable (snd (State.apply_to_dm (State.from_dm (fst w)) (fst w')), snd w').

(** The cursor of a Director that a session can reach: -1 until the story and
    the party are set, then between 0 and the scene count. *)
Definition cursor_ok (d : Director.DM) : Prop :=
  match Director.story d, Director.party d with
  | Some st, Some _ =>
      0 <= Director.current_scene_idx d <= Z.of_nat (List.length (Story.scenes st))
  | None, None => Director.current_scene_idx d = -1
  | _, _ => False
  end.

End WithRandom.

(** A save document as the specification describes it: an object with the
    fields [party] (an object), [story_state] (an object),
    [current_scene_idx] (an integer) and [rng_state] (any value). *)
Definition is_dict (v : pyval) : bool :=
  match v with PDict _ => true | _ => false end.

Definition is_int (v : pyval) : bool :=
  match v with PInt _ => true | _ => false end.

Definition well_formed_save (doc : pyval) : bool :=
  match doc with
  | PDict kv =>
      match lookup "party" kv, lookup "story_state" kv,
            lookup "current_scene_idx" kv, lookup "rng_state" kv with
      | Some p, Some s, Some i, Some _ => is_dict p && is_dict s && is_int i
      | _, _, _, _ => false
      end
  | _ => false
  end.

(** The three shapes of a dice expression: a count, a number of sides, and
    possibly a signed modifier, each written in decimal digits. *)
Inductive modifier : Type :=
| NoMod
| PlusMod (m : Decimal.uint)
| MinusMod (m : Decimal.uint).

Definition digits (u : Decimal.uint) : string := DecimalString.NilEmpty.string_of_uint u.

Definition mod_text (m : modifier) : string :=
  match m with
  | NoMod => ""
  | PlusMod u => String "+" (digits u)
  | MinusMod u => String "-" (digits u)
  end.

Definition mod_value (m : modifier) : Z :=
  match m with
  | NoMod => 0
  | PlusMod u => Z.of_uint u
  | MinusMod u => - Z.of_uint u
  end.

(** The digits of the modifier, without its sign. *)
Definition mod_digits (m : modifier) : string :=
  match m with
  | NoMod => ""
  | PlusMod u | MinusMod u => digits u
  end.

Definition mod_ok (m : modifier) : Prop :=
  match m with
  | NoMod => True
  | PlusMod u | MinusMod u => u <> Decimal.Nil
  end.

(** [NdS], [NdS+M], [NdS-M] *)
Definition dice_text (n s : Decimal.uint) (m : modifier) : string :=
  (digits n ++ String "d" (digits s ++ mod_text m))%string.

(** The grammar as the specification words it: the count and the sides are
    positive integers. *)
Definition valid_dice_expression (expr : string) : Prop :=
  exists n s m,
    expr = dice_text n s m /\ 0 < Z.of_uint n /\ 0 < Z.of_uint s /\ mod_ok m.

(** What [from_dict] rebuilds from [to_dict]: the same record with each field
    passed through [asdict]. *)
Definition Character_asdict (c : Character.Character) : Character.Character :=
  {| Character.name := asdict_inner (Character.name c);
     Character.stats := asdict_inner (Character.stats c);
     Character.hp := asdict_inner (Character.hp c);
     Character.xp := asdict_inner (Character.xp c);
     Character.inventory := asdict_inner (Character.inventory c) |}.

Definition Scene_rebuilt (s : Story.Scene) : Story.Scene :=
  {| Story.id := asdict_inner (Story.id s);
     Story.text := asdict_inner (Story.text s);
     Story.monsters := asdict_inner (Story.monsters s);
     Story.choices := asdict_inner (Story.choices s) |}.

(** Values with no dataclass instance inside, such as a document holds. *)
Fixpoint plain (v : pyval) : bool :=
  match v with
  | PList xs => forallb plain xs
  | PDict kv => forallb (fun p => plain (snd p)) kv
  | PStats _ _ _ _ _ _ | PInventory _ _ => false
  | _ => true
  end.

Definition plain_scene (s : Story.Scene) : bool :=
  plain (Story.id s) && plain (Story.text s)
  && plain (Story.monsters s) && plain (Story.choices s).

Definition plain_character (c : Character.Character) : bool :=
  plain (Character.name c) && plain (Character.stats c) && plain (Character.hp c)
  && plain (Character.xp c) && plain (Character.inventory c).

(** A string stops a digit run when it is empty or starts with a non-digit. *)
Definition stops (rest : string) : Prop :=
  match rest with
  | EmptyString => True
  | String c _ => Dice.is_digit c = false
  end.

(** The [mod] group that [fullmatch] reports for each shape. *)
Definition mod_group (m : modifier) : option string :=
  match m with
  | NoMod => None
  | _ => Some (mod_text m)
  end.

End Contract.

(** ** A session to run the definitions on

    The campaign that ships with the program, a Director on the small
    generator above, and the states it goes through. *)

Module Sample.
Import Py.

Definition goblin_caves : pyval :=
  PDict
    [("scenes",
      PList
        [PDict [("id", PStr "intro");
                ("text", PStr "You stand before the mouth of a dank cave.");
                ("monsters", PList []);
                ("choices", PDict [("deeper", PStr "room1")])];
         PDict [("id", PStr "room1");
                ("text", PStr "A pair of goblins shriek and draw rusty blades.");
                ("monsters", PList [PStr "goblin"; PStr "goblin"]);
                ("choices", PDict [("forward", PStr "treasure"); ("flee", PStr "intro")])];
         PDict [("id", PStr "treasure");
                ("text", PStr "The chamber glitters with coins.");
                ("monsters", PList []);
                ("choices", PDict [])]])].

Definition safe_load (path : string) : outcome pyval := Returned goblin_caves.

(** [DM(42)] *)
Definition fresh : Director.World (R := Dice.lcg) := (Director.init (Some 42), []).

(** after [start] *)
Definition started : Director.World (R := Dice.lcg) :=
  snd (Director.start safe_load "goblin_caves.yml" fresh).

(** the story that [start] has loaded *)
Definition caves : Story.StorySetup := Eval vm_compute in
    match Director.story (fst started) with
    | Some st => st
    | None => {| Story.scenes := [] |}
    end.

(** after [start] and three [play_next] *)
Definition finished : Director.World (R := Dice.lcg) :=
  snd (Director.play_times 3 started).

(** A character as the constructor makes it, with its defaults. *)
Definition lyra : Character.Character :=
  {| Character.name := PStr "Lyra";
     Character.stats := Character.Stats_default;
     Character.hp := PInt 10;
     Character.xp := PInt 0;
     Character.inventory := PInventory (PList []) (PInt 0) |}.

(** [started] once the character-creation step has added [lyra]. *)
Definition with_lyra : Director.DM (R := Dice.lcg) :=
  Director.set_party (Some [lyra]) (fst started).

(** A character as [Character.from_dict] makes it from a saved party: its
    [stats] and [inventory] are the dicts of the document. *)
Definition mira : Character.Character :=
  {| Character.name := PStr "Mira";
     Character.stats := PDict [("str", PInt 8); ("dex", PInt 14); ("con", PInt 12);
                               ("int", PInt 10); ("wis", PInt 13); ("cha", PInt 15)];
     Character.hp := PInt 7;
     Character.xp := PInt 120;
     Character.inventory := PDict [("items", PList [PStr "dagger"]); ("gold", PInt 3)] |}.

(** A fallen companion. *)
Definition orin : Character.Character :=
  {| Character.name := PStr "Orin";
     Character.stats := PDict [];
     Character.hp := PInt 0;
     Character.xp := PInt 40;
     Character.inventory := PDict [] |}.

(** [started] with the party [orin], [mira]. *)
Definition with_mira : Director.DM (R := Dice.lcg) :=
  Director.set_party (Some [orin; mira]) (fst started).

(** The numeral 2 written with 4300 zeros in front, and the roll of that many
    six-sided dice. *)
Fixpoint zeros (k : nat) (u : Decimal.uint) : Decimal.uint :=
  match k with
  | O => u
  | S k' => Decimal.D0 (zeros k' u)
  end.

Definition padded_two : Decimal.uint := zeros 4300 (Decimal.D2 Decimal.Nil).

Definition long_roll : string :=
  Contract.dice_text padded_two (Decimal.D6 Decimal.Nil) Contract.NoMod.

(** A companion whose hit points were never set. *)
Definition ghost : Character.Character :=
  {| Character.name := PStr "Ghost";
     Character.stats := PDict [];
     Character.hp := PNone;
     Character.xp := PInt 0;
     Character.inventory := PDict [] |}.

(** [started] with the cursor set to the last scene from the end. *)
Definition rewound : Director.World (R := Dice.lcg) :=
  (Director.set_current_scene_idx (-1) (fst started), []).

(** A save document as [Serializer.save] lays it out. *)
Definition good_save : list (string * pyval) :=
  [("party", PDict [("members", PList [])]);
   ("story_state", PDict [("scenes", PList [])]);
   ("current_scene_idx", PInt 0);
   ("rng_state", PList [PInt 3; PList [PInt 1; PInt 2]; PNone])].

(** A campaign file with no scene in it. *)
Definition no_scenes (path : string) : outcome pyval :=
  Returned (PDict [("scenes", PList [])]).

(** A snapshot whose party can be read and whose story cannot. *)
Definition half_snapshot : State.GameState Z (Dice.rng (Random := Dice.lcg)) :=
  {| State.party := PDict [("members", PList [])];
     State.story_state := PDict [];
     State.current_scene_idx := 2;
     State.rng_state := 7 |}.

(** A document with the four snapshot fields, none of the specified type. *)
Definition odd_save : pyval :=
  PDict [("party", PInt 1); ("story_state", PStr "none");
         ("current_scene_idx", PStr "three"); ("rng_state", PNone)].

(** A document without [current_scene_idx]. *)
Definition short_save : pyval :=
  PDict [("party", PDict [("members", PList [])]);
         ("story_state", PDict [("scenes", PList [])]);
         ("rng_state", PNone)].

End Sample.

(** * Properties *)

Import Py.
Import Contract.
Local Open Scope py_scope.

(** ** Ability modifiers and proficiency (models/character.py, core/character.py) *)

(** C8. For every integer score, [Stats.modifier] and [ability_modifier] both
    return the floor of (score - 10) / 2: the largest integer [m] with
    [2 * m <= score - 10].  Below 10 the result is negative and differs from
    the quotient truncated toward zero whenever the score is odd. *)
Theorem ability_modifier_is_floor :
  forall (self : pyval) (score : Z),
    Character.Stats_modifier self score = Qfloor ((score - 10) # 2)
    /\ Models.ability_modifier score = Qfloor ((score - 10) # 2)
    /\ 2 * Models.ability_modifier score <= score - 10
         < 2 * (Models.ability_modifier score + 1)
    /\ (inject_Z (Models.ability_modifier score) <= (score - 10) # 2
        /\ (score - 10) # 2 < inject_Z (Models.ability_modifier score + 1))%Q.
Proof.
  intros self score.
  unfold Character.Stats_modifier, Models.ability_modifier.
  repeat split.
  - pose proof (Z.mul_div_le (score - 10) 2). lia.
  - pose proof (Z.mul_succ_div_gt (score - 10) 2). lia.
  - change ((score - 10) / 2) with (Qfloor ((score - 10) # 2)). apply Qfloor_le.
  - change ((score - 10) / 2) with (Qfloor ((score - 10) # 2)). apply Qlt_floor.
Qed.

(** The floor is not the truncated quotient: at score 9 the modifier is -1. *)
Example ability_modifier_9 :
  Models.ability_modifier 9 = -1 /\ Z.quot (9 - 10) 2 = 0.
Proof. split; reflexivity. Qed.

(** [Character.ability_mod] is [ability_modifier] at the stored score. *)
Lemma ability_mod_lookup (c : Models.Character) (a : Models.Ability) (v : Z) :
  Models.abilities_get (Models.abilities c) a = Returned v ->
  Models.ability_mod c a = Returned ((v - 10) / 2).
Proof. intros H. unfold Models.ability_mod. rewrite H. reflexivity. Qed.

Lemma level_up_run (c : Models.Character) :
  Models.level_up c =
  (Returned tt,
   {| Models.name := Models.name c; Models.race := Models.race c;
      Models.char_class := Models.char_class c;
      Models.level := Models.level c + 1;
      Models.abilities := Models.abilities c; Models.max_hp := Models.max_hp c;
      Models.proficiency_bonus := 2 + (Models.level c + 1 - 1) / 4 |}).
Proof. reflexivity. Qed.

Lemma level_ups_run (n : nat) :
  forall c : Models.Character,
    Models.proficiency_bonus c = 2 + (Models.level c - 1) / 4 ->
    exists c',
      Models.level_ups n c = (Returned tt, c')
      /\ Models.level c' = Models.level c + Z.of_nat n
      /\ Models.proficiency_bonus c' = 2 + (Models.level c' - 1) / 4.
Proof.
  induction n as [|n IH]; intros c Hc.
  - exists c. simpl. unfold ret. repeat split; [lia | assumption].
  - destruct (IH (snd (Models.level_up c))) as (c' & Hrun & Hlvl & Hpb).
    + rewrite level_up_run. reflexivity.
    + exists c'. split; [|split].
      * simpl. unfold bind at 1. rewrite level_up_run.
        rewrite level_up_run in Hrun. exact Hrun.
      * rewrite Hlvl, level_up_run. simpl. lia.
      * exact Hpb.
Qed.

(** C9. Constructing a [Character] fails exactly when the level is below 1;
    a constructed character has [proficiency_bonus = 2 + (level - 1) // 4],
    and so has the character after any number of [level_up] calls, each of
    which returns and adds one to the level. *)
Theorem proficiency_bonus_invariant :
  forall (name race char_class : string) (level : Z)
         (abilities : list (Models.Ability * Z)) (max_hp : option Z),
    match Models.new name race char_class level abilities max_hp with
    | Raised e => level < 1 /\ e = ValueError "level must be >= 1"
    | Returned c =>
        1 <= level
        /\ Models.level c = level
        /\ Models.proficiency_bonus c = 2 + (Models.level c - 1) / 4
        /\ forall n : nat,
             exists c',
               Models.level_ups n c = (Returned tt, c')
               /\ Models.level c' = level + Z.of_nat n
               /\ Models.proficiency_bonus c' = 2 + (Models.level c' - 1) / 4
    end.
Proof.
  intros name race char_class level abilities max_hp.
  unfold Models.new, Models.__post_init__, bind, get. simpl.
  destruct (Z.ltb_spec level 1) as [Hlt | Hge]; simpl.
  - split; [assumption | reflexivity].
  - repeat split; try assumption.
    intros n.
    match goal with
    | |- exists c', Models.level_ups n ?c = _ /\ _ =>
        destruct (level_ups_run n c eq_refl) as (c' & Hrun & Hlvl & Hpb)
    end.
    exists c'. repeat split; assumption.
Qed.

(** ** The Director (core/dm.py) *)

Section DirectorProperties.
Context {R : Dice.Random}.

Lemma list_getitem_inside {A} (l : list A) (i : Z) :
  0 <= i < Z.of_nat (List.length l) ->
  exists x, nth_error l (Z.to_nat i) = Some x /\ list_getitem l i = Returned x.
Proof.
  intros Hi. unfold list_getitem. cbv zeta.
  assert (E1 : (i <? 0) = false) by (apply Z.ltb_ge; lia).
  assert (E2 : (Z.of_nat (List.length l) <=? i) = false) by (apply Z.leb_gt; lia).
  rewrite !E1, E2. simpl.
  destruct (nth_error l (Z.to_nat i)) as [x |] eqn:Hnth.
  - exists x. split; reflexivity.
  - apply nth_error_None in Hnth. lia.
Qed.

Lemma list_getitem_beyond {A} (l : list A) (i : Z) :
  Z.of_nat (List.length l) <= i -> list_getitem l i = Raised IndexError.
Proof.
  intros Hi. unfold list_getitem. cbv zeta.
  assert (E1 : (i <? 0) = false) by (apply Z.ltb_ge; lia).
  assert (E2 : (Z.of_nat (List.length l) <=? i) = true) by (apply Z.leb_le; lia).
  rewrite !E1, E2. reflexivity.
Qed.

Lemma set_current_scene_idx_same (d : Director.DM) :
  Director.set_current_scene_idx (Director.current_scene_idx d) d = d.
Proof. destruct d. reflexivity. Qed.

Lemma wins_app (l1 l2 : list Story.event) :
  Contract.wins (l1 ++ l2) = (Contract.wins l1 + Contract.wins l2)%nat.
Proof. unfold Contract.wins. rewrite filter_app, length_app. reflexivity. Qed.

(** One call on a started Director whose cursor is inside the story. *)
Lemma play_next_step (w : Director.World) (st : Story.StorySetup) (p : Party.t) :
  Director.story (fst w) = Some st ->
  Director.party (fst w) = Some p ->
  0 <= Director.current_scene_idx (fst w) < Z.of_nat (List.length (Story.scenes st)) ->
  exists sc,
    nth_error (Story.scenes st) (Z.to_nat (Director.current_scene_idx (fst w))) = Some sc
    /\ Director.play_next w =
       (Returned tt,
        (Director.set_current_scene_idx (Director.current_scene_idx (fst w) + 1) (fst w),
         (snd w ++ [Story.EnterScene sc])
         ++ (if Z.of_nat (List.length (Story.scenes st))
                <=? Director.current_scene_idx (fst w) + 1
             then [Story.WinScreen] else []))).
Proof.
  intros Hst Hp Hi.
  destruct (list_getitem_inside (Story.scenes st) _ Hi) as (sc & Hnth & Hget).
  exists sc. split; [exact Hnth |].
  unfold Director.play_next, bind, Director.self_, lift. simpl.
  rewrite Hst, Hp, Hget. simpl.
  destruct (Z.leb_spec (Z.of_nat (List.length (Story.scenes st)))
              (Director.current_scene_idx (fst w) + 1)); simpl.
  - reflexivity.
  - rewrite app_nil_r. reflexivity.
Qed.

(** [k] calls in a row while the cursor stays within the story. *)
Lemma play_times_run (st : Story.StorySetup) (p : Party.t) (k : nat) :
  forall w : Director.World,
    Director.story (fst w) = Some st ->
    Director.party (fst w) = Some p ->
    0 <= Director.current_scene_idx (fst w) ->
    Director.current_scene_idx (fst w) + Z.of_nat k
      <= Z.of_nat (List.length (Story.scenes st)) ->
    exists log,
      Director.play_times k w =
      (Returned tt,
       (Director.set_current_scene_idx
          (Director.current_scene_idx (fst w) + Z.of_nat k) (fst w), log))
      /\ Contract.wins log =
         (Contract.wins (snd w)
          + (if ((0 <? Z.of_nat k)
                 && (Director.current_scene_idx (fst w) + Z.of_nat k
                     =? Z.of_nat (List.length (Story.scenes st))))%Z
             then 1 else 0))%nat.
Proof.
  induction k as [|k IH]; intros w Hst Hp H0 Hk.
  - exists (snd w). simpl Director.play_times. unfold ret.
    rewrite Z.add_0_r, set_current_scene_idx_same.
    destruct w; simpl. split; [reflexivity | lia].
  - destruct (play_next_step w st p Hst Hp) as (sc & _ & Hstep); [lia |].
    simpl Director.play_times. unfold bind at 1. rewrite Hstep.
    match goal with
    | |- context [Director.play_times k ?w1] =>
        destruct (IH w1) as (log & Hrun & Hwins)
    end; try (simpl; assumption || lia).
    exists log. split.
    + rewrite Hrun. simpl fst. simpl Director.current_scene_idx.
      unfold Director.set_current_scene_idx. simpl.
      replace (Director.current_scene_idx (fst w) + 1 + Z.of_nat k)
        with (Director.current_scene_idx (fst w) + Z.pos (Pos.of_succ_nat k)) by lia.
      reflexivity.
    + rewrite Hwins. simpl fst. simpl snd. simpl Director.current_scene_idx.
      rewrite !wins_app.
      change (Contract.wins [Story.EnterScene sc]) with O.
      generalize (Contract.wins (snd w)); intros n0.
      clear IH Hrun Hwins Hstep.
      repeat match goal with
             | |- context [if ?c then _ else _] => destruct c eqn:?
             end;
        rewrite ?andb_true_iff, ?andb_false_iff, ?Z.leb_le, ?Z.leb_gt,
          ?Z.ltb_lt, ?Z.ltb_ge, ?Z.eqb_eq, ?Z.eqb_neq in *;
        unfold Contract.wins; simpl List.length; lia.
Qed.

(** C2. On a started Director whose cursor [i] is inside an [N]-scene story,
    [play_next] returns, enters the scene at [i] and moves the cursor to
    [i + 1], whatever the scene's choices are.  From a fresh start, [k <= N]
    calls in a row all return and leave the cursor at [k]; the win behaviour
    has then run once if [k = N] and not at all if [k < N], and the Director
    is complete exactly when [k = N]. *)
Theorem play_next_linear_until_win :
  forall (w : Director.World) (st : Story.StorySetup) (p : Party.t),
    Director.story (fst w) = Some st ->
    Director.party (fst w) = Some p ->
    (0 <= Director.current_scene_idx (fst w) < Z.of_nat (List.length (Story.scenes st)) ->
     exists sc log,
       nth_error (Story.scenes st) (Z.to_nat (Director.current_scene_idx (fst w))) = Some sc
       /\ Director.play_next w =
          (Returned tt,
           (Director.set_current_scene_idx
              (Director.current_scene_idx (fst w) + 1) (fst w),
            snd w ++ Story.EnterScene sc :: log)))
    /\ (Director.current_scene_idx (fst w) = 0 ->
        Story.scenes st <> [] ->
        forall k : nat,
          (k <= List.length (Story.scenes st))%nat ->
          exists wk,
            Director.play_times k w = (Returned tt, wk)
            /\ Director.current_scene_idx (fst wk) = Z.of_nat k
            /\ Contract.wins (snd wk) =
               (Contract.wins (snd w)
                + (if (k =? List.length (Story.scenes st))%nat then 1 else 0))%nat
            /\ Contract.phase_of (fst wk) =
               (if (k =? List.length (Story.scenes st))%nat
                then Contract.Complete else Contract.Active)).
Proof.
  intros w st p Hst Hp. split.
  - intros Hi.
    destruct (play_next_step w st p Hst Hp Hi) as (sc & Hnth & Hstep).
    exists sc. eexists. split; [exact Hnth |].
    rewrite Hstep, <- app_assoc. reflexivity.
  - intros H0 Hne k Hk.
    assert (HN : (0 < List.length (Story.scenes st))%nat)
      by (destruct (Story.scenes st); [congruence | simpl; lia]).
    destruct (play_times_run st p k w Hst Hp) as (log & Hrun & Hwins); [lia | lia |].
    eexists. split; [exact Hrun |].
    rewrite H0 in *. simpl fst. simpl snd. simpl Z.add in *. split; [|split].
    + reflexivity.
    + rewrite Hwins.
      destruct (Nat.eqb_spec k (List.length (Story.scenes st))) as [-> | Hneq].
      * replace (0 <? Z.of_nat (List.length (Story.scenes st))) with true
          by (symmetry; apply Z.ltb_lt; lia).
        rewrite Z.eqb_refl. reflexivity.
      * replace (Z.of_nat k =? Z.of_nat (List.length (Story.scenes st))) with false
          by (symmetry; apply Z.eqb_neq; lia).
        rewrite andb_false_r. reflexivity.
    + unfold Contract.phase_of. simpl. rewrite Hst, Hp.
      destruct (Nat.eqb_spec k (List.length (Story.scenes st))) as [-> | Hneq].
      * rewrite Z.leb_refl. reflexivity.
      * destruct (Z.leb_spec (Z.of_nat (List.length (Story.scenes st))) (Z.of_nat k));
          [lia | reflexivity].
Qed.

(** Before [start], nothing happens but the exception. *)
Lemma play_next_unstarted (w : Director.World) :
  Director.story (fst w) = None \/ Director.party (fst w) = None ->
  Director.play_next w = (Raised (RuntimeError "DM.start() must be called first."), w).
Proof.
  destruct w as [d log]. intros H.
  unfold Director.play_next, bind, Director.self_, raise. simpl in *.
  destruct H as [H | H]; rewrite H; [| destruct (Director.story d)]; reflexivity.
Qed.

(** With the cursor at or past the end, the scene lookup raises. *)
Lemma play_next_past_end (w : Director.World) (st : Story.StorySetup) (p : Party.t) :
  Director.story (fst w) = Some st ->
  Director.party (fst w) = Some p ->
  Z.of_nat (List.length (Story.scenes st)) <= Director.current_scene_idx (fst w) ->
  Director.play_next w = (Raised IndexError, w).
Proof.
  destruct w as [d log]. intros Hst Hp Hi. simpl in *.
  unfold Director.play_next, bind, Director.self_, lift. simpl.
  rewrite Hst, Hp, (list_getitem_beyond _ _ Hi). reflexivity.
Qed.

Lemma uninitialized_iff (d : Director.DM) :
  phase_of d = Uninitialized <-> Director.story d = None \/ Director.party d = None.
Proof.
  unfold phase_of.
  destruct (Director.story d) as [st|]; destruct (Director.party d) as [p|];
    try (split; [auto | reflexivity]).
  destruct (_ <=? _); split; try discriminate; intros [H | H]; discriminate H.
Qed.

Lemma complete_inv (d : Director.DM) :
  phase_of d = Complete ->
  exists st p,
    Director.story d = Some st /\ Director.party d = Some p
    /\ Z.of_nat (List.length (Story.scenes st)) <= Director.current_scene_idx d.
Proof.
  unfold phase_of.
  destruct (Director.story d) as [st|]; destruct (Director.party d) as [p|];
    try discriminate.
  destruct (Z.leb_spec (Z.of_nat (List.length (Story.scenes st)))
              (Director.current_scene_idx d)) as [Hle | _]; [| discriminate].
  intros _. exists st, p. repeat split. exact Hle.
Qed.

(** C6, as the code has it. On an uninitialised Director (before [start]: the
    story or the party is still unset) [play_next] raises the not-started
    [RuntimeError] and changes nothing: the Director, its dice included, and
    the messages shown are as before. *)
Theorem play_next_before_start :
  forall w : Director.World,
    phase_of (fst w) = Uninitialized ->
    Director.play_next w = (Raised (RuntimeError "DM.start() must be called first."), w).
Proof.
  intros w H. apply play_next_unstarted, uninitialized_iff, H.
Qed.

(** C10. On a complete Director (the story and the party are set and the
    cursor has reached the scene count) [play_next] raises [IndexError] at the
    scene lookup and changes nothing: the cursor stays where it is and the win
    behaviour does not run again. *)
Theorem play_next_when_complete :
  forall w : Director.World,
    phase_of (fst w) = Complete ->
    Director.play_next w = (Raised IndexError, w)
    /\ Director.current_scene_idx (fst (snd (Director.play_next w)))
       = Director.current_scene_idx (fst w)
    /\ wins (snd (snd (Director.play_next w))) = wins (snd w).
Proof.
  intros w H. destruct (complete_inv _ H) as (st & p & Hst & Hp & Hi).
  rewrite (play_next_past_end w st p Hst Hp Hi). repeat split.
Qed.

End DirectorProperties.

(** ** Snapshots (core/state.py, core/party.py, content/story_setup.py) *)

Lemma Character_from_to_dict (c : Character.Character) :
  Character.from_dict (Character.to_dict c) = Returned (Character_asdict c).
Proof. reflexivity. Qed.

Lemma Scene_new_asdict (s : Story.Scene) :
  Story.Scene_new (Story.Scene_asdict s) = Returned (Scene_rebuilt s).
Proof. reflexivity. Qed.

Lemma omap_map {A B C} (f : A -> B) (g : B -> outcome C) (h : A -> C) (l : list A) :
  (forall a, g (f a) = Returned (h a)) ->
  omap g (map f l) = Returned (map h l).
Proof.
  intros H. induction l as [|a l IH]; simpl.
  - reflexivity.
  - rewrite H, IH. reflexivity.
Qed.

Lemma Party_from_to_dict (p : Party.t) :
  Party.from_dict (Party.to_dict p) = Returned (map Character_asdict p).
Proof.
  unfold Party.from_dict, Party.to_dict. simpl.
  apply omap_map. exact Character_from_to_dict.
Qed.

Lemma Story_from_to_dict (st : Story.StorySetup) :
  Story.from_dict (Story.to_dict st)
  = Returned {| Story.scenes := map Scene_rebuilt (Story.scenes st) |}.
Proof.
  unfold Story.from_dict, Story.to_dict. simpl.
  rewrite (omap_map _ _ Scene_rebuilt _ Scene_new_asdict). reflexivity.
Qed.

Lemma asdict_inner_plain : forall v : pyval, plain v = true -> asdict_inner v = v.
Proof.
  fix IH 1. intros v; destruct v; simpl; intros Hv; try reflexivity; try discriminate.
  - f_equal. induction xs as [|x xs IHxs]; simpl in *.
    + reflexivity.
    + apply andb_prop in Hv. destruct Hv as [Hx Hxs].
      rewrite (IH x Hx), (IHxs Hxs). reflexivity.
  - f_equal. induction kv as [|[k x] kv IHkv]; simpl in *.
    + reflexivity.
    + apply andb_prop in Hv. destruct Hv as [Hx Hkv].
      rewrite (IH x Hx), (IHkv Hkv). reflexivity.
Qed.

Lemma Scene_rebuilt_plain (s : Story.Scene) : plain_scene s = true -> Scene_rebuilt s = s.
Proof.
  unfold plain_scene. intros H.
  repeat (apply andb_prop in H; destruct H as [H ?]).
  destruct s; unfold Scene_rebuilt; simpl in *.
  rewrite !asdict_inner_plain by assumption. reflexivity.
Qed.

Lemma Character_asdict_plain (c : Character.Character) :
  plain_character c = true -> Character_asdict c = c.
Proof.
  unfold plain_character. intros H.
  repeat (apply andb_prop in H; destruct H as [H ?]).
  destruct c; unfold Character_asdict; simpl in *.
  rewrite !asdict_inner_plain by assumption. reflexivity.
Qed.

Lemma map_fixed {A} (f : A -> A) (l : list A) :
  Forall (fun a => f a = a) l -> map f l = l.
Proof. induction 1; simpl; congruence. Qed.

Section SnapshotProperties.
Context {R : Dice.Random}.

(** A snapshot of a Director whose party is unset or empty carries an empty
    [party] dict, and restoring it fails at [data["members"]] before the
    target Director is touched. *)
Lemma apply_snapshot_of_empty_party (d d2 : Director.DM) :
  Director.party d = None \/ Director.party d = Some [] ->
  State.party (State.from_dm d) = PDict []
  /\ State.apply_to_dm (State.from_dm d) d2 = (Raised (KeyError "members"), d2).
Proof.
  intros H.
  assert (E : State.party (State.from_dm d) = PDict [])
    by (unfold State.from_dm; simpl; destruct H as [-> | ->]; reflexivity).
  split; [exact E |].
  unfold State.apply_to_dm, bind, lift. rewrite E. reflexivity.
Qed.

(** A snapshot of a started Director with at least one party member restores:
    the target gets the dice state and the cursor of the source, and the party
    and the story of the source with every field passed through [asdict]. *)
Lemma apply_snapshot_of_party (d d2 : Director.DM) c p st :
  Director.party d = Some (c :: p) ->
  Director.story d = Some st ->
  State.apply_to_dm (State.from_dm d) d2 =
  (Returned tt,
   {| Director.dice := Director.dice d;
      Director.ruleset := Director.ruleset d2;
      Director.party := Some (map Character_asdict (c :: p));
      Director.story := Some {| Story.scenes := map Scene_rebuilt (Story.scenes st) |};
      Director.current_scene_idx := Director.current_scene_idx d |}).
Proof.
  intros Hp Hst.
  unfold State.apply_to_dm, State.from_dm, bind, lift, State.assign. simpl.
  rewrite Hp, Hst. simpl Party.truthy. cbv iota.
  rewrite Party_from_to_dict, Story_from_to_dict. simpl.
  unfold Director.set_dice, Dice.get_state. simpl.
  destruct (Director.dice d). reflexivity.
Qed.

Lemma start_run safe_load path (w : Director.World) :
  match Story.load safe_load path with
  | Returned st =>
      Director.start safe_load path w =
      (Returned tt,
       ({| Director.dice := Director.dice (fst w);
           Director.ruleset := Director.ruleset (fst w);
           Director.party := Some [];
           Director.story := Some st;
           Director.current_scene_idx := 0 |}, snd w))
  | Raised e => Director.start safe_load path w = (Raised e, w)
  end.
Proof.
  unfold Director.start, bind, lift.
  destruct (Story.load safe_load path); reflexivity.
Qed.

Lemma reachable_cursor_ok (w : Director.World) :
  Contract.reachable w -> cursor_ok (fst w).
Proof.
  induction 1 as [seed | w safe_load path Hw IH | w Hw IH | w p p' Hw IH Hp
                 | w d Hw IH | w w' Hw IH Hw' IH'].
  - reflexivity.
  - pose proof (start_run safe_load path w) as Hs.
    destruct (Story.load safe_load path); rewrite Hs; simpl; [| exact IH].
    unfold cursor_ok; simpl. lia.
  - unfold cursor_ok in IH.
    destruct (Director.story (fst w)) as [st|] eqn:Hst;
      destruct (Director.party (fst w)) as [p|] eqn:Hp; try contradiction.
    + destruct (Z.eq_dec (Director.current_scene_idx (fst w))
                  (Z.of_nat (List.length (Story.scenes st)))) as [Heq | Hneq].
      * rewrite (play_next_past_end w st p Hst Hp) by lia.
        unfold cursor_ok. simpl snd. rewrite Hst, Hp. exact IH.
      * destruct (play_next_step w st p Hst Hp) as (sc & _ & Hstep); [lia |].
        rewrite Hstep. unfold cursor_ok. simpl. rewrite Hst, Hp. lia.
    + rewrite play_next_unstarted by (left; exact Hst).
      unfold cursor_ok. simpl snd. rewrite Hst, Hp. exact IH.
  - unfold cursor_ok in *. simpl. rewrite Hp in IH.
    destruct (Director.story (fst w)); [exact IH | contradiction].
  - exact IH.
  - simpl fst.
    destruct (Director.party (fst w)) as [[|c p]|] eqn:Hp.
    + rewrite (proj2 (apply_snapshot_of_empty_party (fst w) (fst w') (or_intror Hp))).
      exact IH'.
    + unfold cursor_ok in IH. rewrite Hp in IH.
      destruct (Director.story (fst w)) as [st|] eqn:Hst; [| contradiction].
      rewrite (apply_snapshot_of_party (fst w) (fst w') c p st Hp Hst).
      unfold cursor_ok. simpl. rewrite length_map. exact IH.
    + rewrite (proj2 (apply_snapshot_of_empty_party (fst w) (fst w') (or_introl Hp))).
      exact IH'.
Qed.

(** C5, as the code has it. The snapshot of a reachable Director whose story
    is set has a [story_state] with a [scenes] list and a cursor between 0 and
    the length of that list; the snapshot of one whose story is not set yet
    has an empty [story_state] and the cursor -1. *)
Theorem snapshot_cursor_in_range :
  forall w : Director.World,
    Contract.reachable w ->
    match Director.story (fst w) with
    | Some _ =>
        exists l,
          State.story_state (State.from_dm (fst w)) = PDict [("scenes", PList l)]
          /\ 0 <= State.current_scene_idx (State.from_dm (fst w))
               <= Z.of_nat (List.length l)
    | None =>
        State.story_state (State.from_dm (fst w)) = PDict []
        /\ State.current_scene_idx (State.from_dm (fst w)) = -1
    end.
Proof.
  intros w Hw. apply reachable_cursor_ok in Hw. unfold cursor_ok in Hw.
  unfold State.from_dm. simpl.
  destruct (Director.story (fst w)) as [st|];
    destruct (Director.party (fst w)); try contradiction.
  - eexists. split; [reflexivity |]. rewrite length_map. exact Hw.
  - split; [reflexivity | exact Hw].
Qed.

(** C1, at the failing input. For a Director whose party is set but empty, as
    [start] leaves it, restoring its snapshot into any Director raises
    [KeyError] and leaves that Director as it was. *)
Theorem snapshot_of_empty_party_not_restored :
  forall d d2 : Director.DM,
    Director.party d = Some [] ->
    State.party (State.from_dm d) = PDict []
    /\ State.apply_to_dm (State.from_dm d) d2 = (Raised (KeyError "members"), d2).
Proof.
  intros d d2 H.
  exact (apply_snapshot_of_empty_party d d2 (or_intror H)).
Qed.

End SnapshotProperties.

(** ** The dice roller (core/dice.py) *)

(** *** Decimal numerals and the pattern *)

Lemma digit_cases (c : ascii) :
  Dice.is_digit c = true ->
  (c = "0" \/ c = "1" \/ c = "2" \/ c = "3" \/ c = "4"
   \/ c = "5" \/ c = "6" \/ c = "7" \/ c = "8" \/ c = "9")%char.
Proof.
  destruct c as [[|] [|] [|] [|] [|] [|] [|] [|]]; intros H;
    try discriminate H; tauto.
Qed.

Lemma digit_cons (c : ascii) (u : Decimal.uint) :
  Dice.is_digit c = true ->
  exists u', String c (Contract.digits u) = Contract.digits u' /\ u' <> Decimal.Nil.
Proof.
  intros H.
  destruct (digit_cases c H) as [-> | [-> | [-> | [-> | [-> | [-> | [-> | [-> | [-> | ->]]]]]]]]].
  - exists (Decimal.D0 u). split; [reflexivity | discriminate].
  - exists (Decimal.D1 u). split; [reflexivity | discriminate].
  - exists (Decimal.D2 u). split; [reflexivity | discriminate].
  - exists (Decimal.D3 u). split; [reflexivity | discriminate].
  - exists (Decimal.D4 u). split; [reflexivity | discriminate].
  - exists (Decimal.D5 u). split; [reflexivity | discriminate].
  - exists (Decimal.D6 u). split; [reflexivity | discriminate].
  - exists (Decimal.D7 u). split; [reflexivity | discriminate].
  - exists (Decimal.D8 u). split; [reflexivity | discriminate].
  - exists (Decimal.D9 u). split; [reflexivity | discriminate].
Qed.

Lemma digits_head (u : Decimal.uint) :
  u <> Decimal.Nil ->
  exists c r, Contract.digits u = String c r /\ Dice.is_digit c = true
              /\ exists u', r = Contract.digits u'.
Proof.
  intros Hu. destruct u; [congruence | ..];
    (eexists; eexists; split; [reflexivity | split; [reflexivity | eexists; reflexivity]]).
Qed.

Lemma span_digits_stop (rest : string) :
  stops rest -> Dice.span_digits rest = (EmptyString, rest).
Proof.
  destruct rest as [|c r]; simpl; intros H; [reflexivity | rewrite H; reflexivity].
Qed.

Lemma span_digits_digits (u : Decimal.uint) (rest : string) :
  stops rest ->
  Dice.span_digits (Contract.digits u ++ rest) = (Contract.digits u, rest).
Proof.
  intros H. unfold Contract.digits.
  induction u; simpl; try (rewrite IHu; reflexivity).
  apply span_digits_stop. exact H.
Qed.

(** What [span_digits] returns: a numeral, and a rest that stops the run. *)
Lemma span_digits_inv (s : string) :
  forall d rest,
    Dice.span_digits s = (d, rest) ->
    s = (d ++ rest)%string /\ stops rest /\ exists u, d = Contract.digits u.
Proof.
  induction s as [|c r IH]; simpl; intros d rest H.
  - injection H as <- <-. repeat split. exists Decimal.Nil. reflexivity.
  - destruct (Dice.is_digit c) eqn:Hc.
    + destruct (Dice.span_digits r) as [d' rest'] eqn:Hr.
      injection H as <- <-.
      destruct (IH d' rest' eq_refl) as (-> & Hstop & u & ->).
      repeat split; [exact Hstop |].
      destruct (digit_cons c u Hc) as (u' & Hu' & _). exists u'. exact Hu'.
    + injection H as <- <-. repeat split; [simpl; exact Hc |].
      exists Decimal.Nil. reflexivity.
Qed.

Lemma digits_empty (u : Decimal.uint) :
  Contract.digits u = EmptyString -> u = Decimal.Nil.
Proof. destruct u; simpl; intros H; congruence. Qed.

Lemma span_digits_all (u : Decimal.uint) :
  Dice.span_digits (Contract.digits u) = (Contract.digits u, EmptyString).
Proof.
  unfold Contract.digits. induction u; simpl; try (rewrite IHu); reflexivity.
Qed.

(** On an expression of the three shapes the pattern matches, with the count,
    the sides and the modifier as its groups. *)
Lemma fullmatch_dice_text (n s : Decimal.uint) (m : Contract.modifier) :
  n <> Decimal.Nil -> s <> Decimal.Nil -> Contract.mod_ok m ->
  Dice.fullmatch (Contract.dice_text n s m)
  = Some (Contract.digits n, Contract.digits s, mod_group m).
Proof.
  intros Hn Hs Hm. unfold Dice.fullmatch, Contract.dice_text.
  rewrite span_digits_digits by reflexivity.
  destruct (digits_head n Hn) as (cn & rn & -> & _ & _).
  destruct (digits_head s Hs) as (cs & rs & Es & _ & _).
  destruct m as [|u|u]; simpl Contract.mod_text; simpl mod_group.
  - rewrite span_digits_digits by exact I. rewrite Es. reflexivity.
  - rewrite span_digits_digits by reflexivity. rewrite Es.
    simpl in Hm. destruct (digits_head u Hm) as (cu & ru & Eu & _ & _).
    simpl. rewrite span_digits_all, Eu. reflexivity.
  - rewrite span_digits_digits by reflexivity. rewrite Es.
    simpl in Hm. destruct (digits_head u Hm) as (cu & ru & Eu & _ & _).
    simpl. rewrite span_digits_all, Eu. reflexivity.
Qed.

Lemma append_empty_r (s : string) : (s ++ "")%string = s.
Proof. induction s as [|c s IH]; simpl; [reflexivity | rewrite IH; reflexivity]. Qed.

Lemma is_sign_cases (c : ascii) : Dice.is_sign c = true -> (c = "+" \/ c = "-")%char.
Proof.
  unfold Dice.is_sign. intros H. apply orb_prop in H.
  destruct H as [H | H]; apply Ascii.eqb_eq in H; auto.
Qed.

(** Conversely, the pattern matches nothing but the three shapes. *)
Lemma fullmatch_inv (expr : string) (g : string * string * option string) :
  Dice.fullmatch expr = Some g ->
  exists n s m,
    n <> Decimal.Nil /\ s <> Decimal.Nil /\ Contract.mod_ok m
    /\ expr = Contract.dice_text n s m
    /\ g = (Contract.digits n, Contract.digits s, mod_group m).
Proof.
  unfold Dice.fullmatch.
  destruct (Dice.span_digits expr) as [num r1] eqn:E1.
  apply span_digits_inv in E1. destruct E1 as (-> & _ & n & ->).
  destruct (Contract.digits n) as [|cn rn] eqn:En; [discriminate |].
  destruct r1 as [|c r2]; [discriminate |].
  destruct (Ascii.eqb_spec c "d") as [-> | _]; [| discriminate].
  destruct (Dice.span_digits r2) as [sides r3] eqn:E2.
  apply span_digits_inv in E2. destruct E2 as (-> & _ & s & ->).
  destruct (Contract.digits s) as [|cs rs] eqn:Es; [discriminate |].
  assert (Hn : n <> Decimal.Nil) by (intros ->; discriminate En).
  assert (Hs : s <> Decimal.Nil) by (intros ->; discriminate Es).
  destruct r3 as [|c' r4].
  - intros [= <-]. exists n, s, Contract.NoMod.
    unfold Contract.dice_text. simpl. rewrite En, Es.
    repeat split; assumption.
  - destruct (Dice.is_sign c') eqn:Hc'; [| discriminate].
    destruct (Dice.span_digits r4) as [m r5] eqn:E3.
    apply span_digits_inv in E3. destruct E3 as (-> & _ & u & ->).
    destruct (Contract.digits u) as [|cu ru] eqn:Eu; [discriminate |].
    destruct r5; [| discriminate].
    assert (Hu : u <> Decimal.Nil) by (intros ->; discriminate Eu).
    intros [= <-]. rewrite append_empty_r.
    destruct (is_sign_cases c' Hc') as [-> | ->].
    + exists n, s, (Contract.PlusMod u).
      unfold Contract.dice_text. simpl. rewrite En, Es, Eu.
      repeat split; assumption.
    + exists n, s, (Contract.MinusMod u).
      unfold Contract.dice_text. simpl. rewrite En, Es, Eu.
      repeat split; assumption.
Qed.

(** The strings that [\d+] matches are the non-empty numerals. *)
Lemma matches_digits (u : Decimal.uint) :
  u <> Decimal.Nil -> Dice.matches (Dice.Plus Dice.Digit) (Contract.digits u).
Proof.
  unfold Contract.digits.
  assert (step : forall c v,
             Dice.is_digit c = true ->
             (v <> Decimal.Nil ->
              Dice.matches (Dice.Plus Dice.Digit) (NilEmpty.string_of_uint v)) ->
             Dice.matches (Dice.Plus Dice.Digit)
               (String c (NilEmpty.string_of_uint v))).
  { intros c v Hc Hv.
    destruct v; [apply Dice.m_plus_one, Dice.m_digit, Hc | ..];
      (apply (Dice.m_plus_more Dice.Digit (String c EmptyString));
       [apply Dice.m_digit, Hc | apply Hv; discriminate]). }
  induction u; intros Hu; [congruence | ..];
    simpl; (apply step; [reflexivity | exact IHu]).
Qed.

Lemma matches_digits_inv (r : Dice.regex) (s : string) :
  Dice.matches r s -> r = Dice.Plus Dice.Digit ->
  exists u, u <> Decimal.Nil /\ s = Contract.digits u.
Proof.
  induction 1 as [c Hc | c | c cs Hc | r1 r2 s1 s2 H1 _ H2 _ | r s H _
                 | r s1 s2 H1 _ H2 IH | r | r s H _]; intros E; try discriminate E.
  - injection E as ->. inversion H as [c Hc | | | | | | |]; subst.
    destruct (digit_cons c Decimal.Nil Hc) as (u & Hu & Hne).
    exists u. split; [exact Hne | exact Hu].
  - injection E as ->. destruct (IH eq_refl) as (u2 & _ & ->).
    inversion H1 as [c Hc | | | | | | |]; subst.
    destruct (digit_cons c u2 Hc) as (u & Hu & Hne).
    exists u. split; [exact Hne | exact Hu].
Qed.

(** The strings that [_roll_re] matches in full: [NdS], [NdS+M], [NdS-M]. *)
Lemma matches_roll_re (expr : string) :
  Dice.matches Dice._roll_re expr <->
  exists n s m,
    n <> Decimal.Nil /\ s <> Decimal.Nil /\ Contract.mod_ok m
    /\ expr = Contract.dice_text n s m.
Proof.
  split.
  - unfold Dice._roll_re. intros H.
    inversion H as [ | | | r1 r2 s1 s2 Hn H2 | | | | ]; subst. clear H.
    inversion H2 as [ | | | r1 r2 s3 s4 Hd H3 | | | | ]; subst. clear H2.
    inversion Hd; subst. clear Hd.
    inversion H3 as [ | | | r1 r2 s5 s6 Hs H4 | | | | ]; subst. clear H3.
    destruct (matches_digits_inv _ _ Hn eq_refl) as (n & Hn' & ->).
    destruct (matches_digits_inv _ _ Hs eq_refl) as (s & Hs' & ->).
    inversion H4 as [ | | | | | | r | r s7 H5 ]; subst; clear H4.
    + exists n, s, Contract.NoMod. repeat split; assumption.
    + inversion H5 as [ | | | r1 r2 s8 s9 Hsign Hm | | | | ]; subst. clear H5.
      destruct (matches_digits_inv _ _ Hm eq_refl) as (u & Hu & ->).
      inversion Hsign as [ | | c cs Hin | | | | | ]; subst.
      destruct Hin as [<- | [<- | []]].
      * exists n, s, (Contract.PlusMod u). repeat split; assumption.
      * exists n, s, (Contract.MinusMod u). repeat split; assumption.
  - intros (n & s & m & Hn & Hs & Hm & ->).
    unfold Dice._roll_re, Contract.dice_text.
    apply Dice.m_seq; [apply matches_digits, Hn |].
    apply (Dice.m_seq _ _ (String "d" EmptyString)); [apply Dice.m_lit |].
    apply Dice.m_seq; [apply matches_digits, Hs |].
    destruct m as [|u|u]; simpl in *.
    + apply Dice.m_opt_none.
    + apply Dice.m_opt_some.
      apply (Dice.m_seq _ _ (String "+" EmptyString));
        [apply Dice.m_oneof; simpl; auto | apply matches_digits, Hm].
    + apply Dice.m_opt_some.
      apply (Dice.m_seq _ _ (String "-" EmptyString));
        [apply Dice.m_oneof; simpl; auto | apply matches_digits, Hm].
Qed.

(** [fullmatch] decides the pattern. *)
Lemma fullmatch_none (expr : string) :
  Dice.fullmatch expr = None <-> ~ Dice.matches Dice._roll_re expr.
Proof.
  rewrite matches_roll_re. split.
  - intros Hnone (n & s & m & Hn & Hs & Hm & ->).
    rewrite fullmatch_dice_text in Hnone by assumption. discriminate.
  - intros Hno. destruct (Dice.fullmatch expr) as [g|] eqn:E; [| reflexivity].
    exfalso. apply Hno.
    destruct (fullmatch_inv expr g E) as (n & s & m & Hn & Hs & Hm & He & _).
    exists n, s, m. repeat split; assumption.
Qed.

(** *** [int] on the groups *)

Ltac eval_digit :=
  cbn [NilEmpty.string_of_uint Dice.int_digits Pos.of_uint_acc Pos.of_uint];
  repeat match goal with
         | |- context [Dice.is_digit ?c] =>
             let b := eval vm_compute in (Dice.is_digit c) in
             change (Dice.is_digit c) with b
         | |- context [Dice.digit_value ?c] =>
             let v := eval vm_compute in (Dice.digit_value c) in
             change (Dice.digit_value c) with v
         end;
  cbv iota.

Lemma int_digits_from (d : Decimal.uint) :
  forall acc : positive,
    Dice.int_digits (Z.pos acc) (Contract.digits d)
    = Some (Z.pos (Pos.of_uint_acc d acc)).
Proof.
  unfold Contract.digits.
  induction d; intros acc; [reflexivity | ..];
    eval_digit; rewrite <- IHd; f_equal; lia.
Qed.

Lemma int_digits_zero (d : Decimal.uint) :
  Dice.int_digits 0 (Contract.digits d) = Some (Z.of_uint d).
Proof.
  unfold Contract.digits, Z.of_uint.
  induction d; [reflexivity | ..]; eval_digit;
    [exact IHd | ..];
    match goal with
    | |- Dice.int_digits ?a _ = _ =>
        let p := eval vm_compute in a in change a with p
    end; rewrite int_digits_from; reflexivity.
Qed.

Lemma of_uint_nonneg (u : Decimal.uint) : 0 <= Z.of_uint u.
Proof. unfold Z.of_uint. apply N2Z.is_nonneg. Qed.

Section IntProperties.
Context {L : Dice.IntLimit}.

(** [int] on a numeral: its value, unless the numeral is longer than the
    limit allows. *)
Lemma int_of_str_digits (u : Decimal.uint) :
  u <> Decimal.Nil ->
  Dice.int_of_str (Contract.digits u)
  = if Dice.over_limit (Contract.digits u)
    then Raised (ValueError (Dice.int_limit_message (String.length (Contract.digits u))))
    else Returned (Z.of_uint u).
Proof.
  intros Hu. pose proof (int_digits_zero u) as H.
  destruct (digits_head u Hu) as (c & r & E & Hc & _).
  rewrite E in *. unfold Dice.int_of_str.
  destruct (digit_cases c Hc) as [-> | [-> | [-> | [-> | [-> | [-> | [-> | [-> | [-> | ->]]]]]]]]];
    cbv beta iota zeta; rewrite H; reflexivity.
Qed.

Lemma int_of_str_mod (m : Contract.modifier) :
  Contract.mod_ok m ->
  match mod_group m with
  | Some s => Dice.int_of_str s
  | None => Returned 0
  end
  = if Dice.over_limit (mod_digits m)
    then Raised (ValueError (Dice.int_limit_message (String.length (mod_digits m))))
    else Returned (Contract.mod_value m).
Proof.
  destruct m as [|u|u]; simpl; intros Hm; [reflexivity | |];
    pose proof (int_digits_zero u) as H;
    destruct (digits_head u Hm) as (c & r & E & _ & _);
    unfold Dice.int_of_str; rewrite E in *; cbv beta iota zeta; rewrite H;
    destruct (Dice.over_limit (String c r)); reflexivity.
Qed.

End IntProperties.

(** *** Rolling *)

Lemma sum_fold_right (l : list Z) : Dice.sum l = fold_right Z.add 0 l.
Proof.
  unfold Dice.sum.
  assert (H : forall a, fold_left Z.add l a = a + fold_right Z.add 0 l).
  { induction l as [|x l IH]; intros a; simpl; [lia | rewrite IH; lia]. }
  rewrite H. lia.
Qed.

Section RollerProperties.
Context {R : Dice.Random} {L : Dice.IntLimit}.

(** What [roll] does once the pattern has matched: [int] converts the count,
    the sides and the modifier in this order, any of them may be too long for
    it, and after that only the list comprehension touches the generator. *)
Lemma roll_dice_text (n s : Decimal.uint) (m : Contract.modifier) (self : Dice.DiceRoller) :
  n <> Decimal.Nil -> s <> Decimal.Nil -> Contract.mod_ok m ->
  Dice.roll (Contract.dice_text n s m) self =
  if Dice.over_limit (digits n)
  then (Raised (ValueError (Dice.int_limit_message (String.length (digits n)))), self)
  else if Dice.over_limit (digits s)
  then (Raised (ValueError (Dice.int_limit_message (String.length (digits s)))), self)
  else if Dice.over_limit (mod_digits m)
  then (Raised (ValueError (Dice.int_limit_message (String.length (mod_digits m)))), self)
  else
    match Dice.randints (Z.to_nat (Z.of_uint n)) (Z.of_uint s) (Dice._rng self) with
    | (Returned rolls, g) =>
        (Returned (Dice.sum rolls + Contract.mod_value m, rolls), {| Dice._rng := g |})
    | (Raised e, g) => (Raised e, {| Dice._rng := g |})
    end.
Proof.
  intros Hn Hs Hm. unfold Dice.roll.
  rewrite fullmatch_dice_text by assumption.
  unfold bind, lift, Dice.on_rng.
  rewrite (int_of_str_digits n Hn), (int_of_str_digits s Hs), (int_of_str_mod m Hm).
  destruct (Dice.over_limit (digits n)); [reflexivity |].
  destruct (Dice.over_limit (digits s)); [reflexivity |].
  destruct (Dice.over_limit (mod_digits m)); [reflexivity |].
  destruct (Dice.randints _ _ _) as [[rolls | e] g]; reflexivity.
Qed.

(** The same, for numerals that [int] converts. *)
Lemma roll_dice_text_within (n s : Decimal.uint) (m : Contract.modifier)
  (self : Dice.DiceRoller) :
  n <> Decimal.Nil -> s <> Decimal.Nil -> Contract.mod_ok m ->
  Dice.over_limit (digits n) = false ->
  Dice.over_limit (digits s) = false ->
  Dice.over_limit (mod_digits m) = false ->
  Dice.roll (Contract.dice_text n s m) self =
  match Dice.randints (Z.to_nat (Z.of_uint n)) (Z.of_uint s) (Dice._rng self) with
  | (Returned rolls, g) =>
      (Returned (Dice.sum rolls + Contract.mod_value m, rolls), {| Dice._rng := g |})
  | (Raised e, g) => (Raised e, {| Dice._rng := g |})
  end.
Proof.
  intros Hn Hs Hm Ln Ls Lm.
  rewrite (roll_dice_text n s m self Hn Hs Hm), Ln, Ls, Lm. reflexivity.
Qed.

Lemma randints_none (sides : Z) (g : Dice.rng) :
  Dice.randints 0 sides g = (Returned [], g).
Proof. reflexivity. Qed.

(** With a die of no side, the first [randint] raises and the generator is
    left as it was. *)
Lemma randints_empty_range (k : nat) (g : Dice.rng) :
  Dice.randints (S k) 0 g
  = (Raised (ValueError "empty range for randrange() (1, 1, 0)"), g).
Proof. reflexivity. Qed.

Lemma randints_in_range (sides : Z) :
  Dice.randbelow_in_range R -> 1 <= sides ->
  forall (num : nat) (g : Dice.rng),
  exists rolls g',
    Dice.randints num sides g = (Returned rolls, g')
    /\ List.length rolls = num
    /\ Forall (fun x => 1 <= x <= sides) rolls.
Proof.
  intros Hlaw Hs. induction num as [|k IH]; intros g.
  - exists [], g. repeat split. constructor.
  - simpl. unfold bind, Dice.randint.
    replace (0 <? sides + 1 - 1) with true by (symmetry; apply Z.ltb_lt; lia).
    pose proof (Hlaw g (sides + 1 - 1)) as Hk.
    destruct (Dice.randbelow g (sides + 1 - 1)) as [x g1]. simpl in Hk.
    destruct (IH g1) as (rolls & g' & Hrun & Hlen & Hall).
    rewrite Hrun. exists ((1 + x) :: rolls), g'. unfold ret. repeat split.
    + simpl. rewrite Hlen. reflexivity.
    + constructor; [lia | exact Hall].
Qed.

(** C3, as the code has it. On [NdS], [NdS+M] and [NdS-M] with [N] and [S]
    positive, each numeral no longer than [int] accepts, [roll] returns a
    total and [N] individual rolls, each between 1 and [S]; the total is their
    sum, plus [M] or minus [M] when there is a modifier. *)
Theorem roll_valid_expression :
  Dice.randbelow_in_range R ->
  forall (n s : Decimal.uint) (m : Contract.modifier) (self : Dice.DiceRoller),
    0 < Z.of_uint n -> 0 < Z.of_uint s -> Contract.mod_ok m ->
    Dice.over_limit (digits n) = false ->
    Dice.over_limit (digits s) = false ->
    Dice.over_limit (mod_digits m) = false ->
    exists total individual_rolls self',
      Dice.roll (Contract.dice_text n s m) self
      = (Returned (total, individual_rolls), self')
      /\ Z.of_nat (List.length individual_rolls) = Z.of_uint n
      /\ Forall (fun x => 1 <= x <= Z.of_uint s) individual_rolls
      /\ total = fold_right Z.add 0 individual_rolls + Contract.mod_value m.
Proof.
  intros Hlaw n s m self Hn Hs Hm Ln Ls Lm.
  assert (Hn' : n <> Decimal.Nil) by (intros ->; discriminate Hn).
  assert (Hs' : s <> Decimal.Nil) by (intros ->; discriminate Hs).
  rewrite (roll_dice_text_within n s m self Hn' Hs' Hm Ln Ls Lm).
  destruct (randints_in_range (Z.of_uint s) Hlaw ltac:(lia)
              (Z.to_nat (Z.of_uint n)) (Dice._rng self))
    as (rolls & g' & Hrun & Hlen & Hall).
  rewrite Hrun. exists (Dice.sum rolls + Contract.mod_value m), rolls, {| Dice._rng := g' |}.
  repeat split.
  - rewrite Hlen. lia.
  - exact Hall.
  - rewrite sum_fold_right. reflexivity.
Qed.

Lemma randints_returns_some (sides : Z) :
  0 < sides ->
  forall (num : nat) (g : Dice.rng),
  exists rolls g', Dice.randints num sides g = (Returned rolls, g').
Proof.
  intros Hs. induction num as [|k IH]; intros g.
  - exists [], g. reflexivity.
  - simpl. unfold bind, Dice.randint.
    replace (0 <? sides + 1 - 1) with true by (symmetry; apply Z.ltb_lt; lia).
    destruct (Dice.randbelow g (sides + 1 - 1)) as [x g1].
    destruct (IH g1) as (rolls & g' & ->).
    eexists. eexists. reflexivity.
Qed.

(** C4, as the code has it. [roll] raises the invalid-expression error
    exactly when the whole input does not match
    [<count>d<sides>[<+|-><modifier>]] with each part a non-empty run of
    digits, zero included.  An input that matches is rejected in two more
    cases only: by [int], when the count, the sides or the modifier (looked at
    in this order) has more digits than the interpreter converts; and by
    [randint], when the count is positive and the sides are zero.  Otherwise
    [roll] returns, and with a zero count it returns the modifier and no
    rolls.  None of the failures consumes anything from the generator. *)
Theorem roll_failure_modes :
  forall (expr : string) (self : Dice.DiceRoller),
    (~ Dice.matches Dice._roll_re expr ->
     Dice.roll expr self
     = (Raised (ValueError ("Invalid dice expression: " ++ expr)%string), self))
    /\ (Dice.matches Dice._roll_re expr ->
        exists n s m,
          expr = Contract.dice_text n s m
          /\ n <> Decimal.Nil /\ s <> Decimal.Nil /\ Contract.mod_ok m
          /\ (Dice.over_limit (digits n) = true ->
              Dice.roll expr self
              = (Raised (ValueError
                           (Dice.int_limit_message (String.length (digits n)))), self))
          /\ (Dice.over_limit (digits n) = false ->
              Dice.over_limit (digits s) = true ->
              Dice.roll expr self
              = (Raised (ValueError
                           (Dice.int_limit_message (String.length (digits s)))), self))
          /\ (Dice.over_limit (digits n) = false ->
              Dice.over_limit (digits s) = false ->
              Dice.over_limit (mod_digits m) = true ->
              Dice.roll expr self
              = (Raised (ValueError
                           (Dice.int_limit_message (String.length (mod_digits m)))), self))
          /\ (Dice.over_limit (digits n) = false ->
              Dice.over_limit (digits s) = false ->
              Dice.over_limit (mod_digits m) = false ->
              (Z.of_uint n = 0 ->
               Dice.roll expr self = (Returned (Contract.mod_value m, []), self))
              /\ (0 < Z.of_uint n -> Z.of_uint s = 0 ->
                  Dice.roll expr self
                  = (Raised (ValueError "empty range for randrange() (1, 1, 0)"), self))
              /\ (0 < Z.of_uint s ->
                  exists total rolls self',
                    Dice.roll expr self = (Returned (total, rolls), self')))).
Proof.
  intros expr self. split.
  - intros Hno. apply fullmatch_none in Hno.
    unfold Dice.roll. rewrite Hno. reflexivity.
  - intros Hm. apply matches_roll_re in Hm.
    destruct Hm as (n & s & m & Hn & Hs & Hm & ->).
    exists n, s, m.
    split; [reflexivity |]. split; [exact Hn |]. split; [exact Hs |].
    split; [exact Hm |].
    rewrite (roll_dice_text n s m self Hn Hs Hm).
    split; [intros ->; reflexivity |].
    split; [intros -> ->; reflexivity |].
    split; [intros -> -> ->; reflexivity |].
    intros -> -> ->. split; [| split].
    + intros H0. rewrite H0. simpl. destruct self. reflexivity.
    + intros Hpos H0. rewrite H0.
      destruct (Z.to_nat (Z.of_uint n)) as [|k] eqn:Ek; [lia |].
      rewrite randints_empty_range. destruct self. reflexivity.
    + intros Hpos.
      destruct (randints_returns_some _ Hpos (Z.to_nat (Z.of_uint n)) (Dice._rng self))
        as (rolls & g' & ->).
      eexists. eexists. eexists. reflexivity.
Qed.

End RollerProperties.

(** ** Loading a save document (adapters/persistence.py, core/state.py) *)

Lemma known_In (fs : list (string * option pyval)) (f : string) :
  known fs f = true <-> In f (map fst fs).
Proof.
  unfold known. induction fs as [|[k d] fs IH]; simpl.
  - split; [discriminate | tauto].
  - destruct (String.eqb_spec f k) as [-> | Hne].
    + split; auto.
    + rewrite IH. split; [auto | intros [E | H]; [congruence | exact H]].
Qed.

Lemma all_known (fs : list (string * option pyval)) (kv : list (string * pyval)) :
  forallb (fun p => known fs (fst p)) kv = true
  <-> forall f, In f (map fst kv) -> In f (map fst fs).
Proof.
  rewrite forallb_forall. split.
  - intros H f Hf. apply in_map_iff in Hf. destruct Hf as (p & <- & Hp).
    apply known_In, H, Hp.
  - intros H p Hp. apply known_In, H, in_map, Hp.
Qed.

(** C7, as the code has it. [Serializer.load] passes on the failure of the
    parser; a document that is not an object, one that lacks any of the four
    snapshot fields ([current_scene_idx] among them) and one with a field of
    another name make the snapshot constructor raise [TypeError]; an object
    with the four fields and no other becomes a snapshot holding the four
    values as they are, of whatever type. *)
Theorem load_checks_field_names :
  forall (json_load : string -> outcome pyval) (path : string),
    match json_load path with
    | Raised e => Persistence.load json_load path = Raised e
    | Returned (PDict kv) =>
        (forall f, In f (map fst State.fields) -> lookup f kv = None ->
                   Persistence.load json_load path = Raised TypeError)
        /\ (forall f, In f (map fst kv) -> ~ In f (map fst State.fields) ->
                      Persistence.load json_load path = Raised TypeError)
        /\ (forall p s i g,
              lookup "party" kv = Some p -> lookup "story_state" kv = Some s ->
              lookup "current_scene_idx" kv = Some i -> lookup "rng_state" kv = Some g ->
              (forall f, In f (map fst kv) -> In f (map fst State.fields)) ->
              Persistence.load json_load path
              = Returned {| State.party := p; State.story_state := s;
                            State.current_scene_idx := i; State.rng_state := g |})
    | Returned _ => Persistence.load json_load path = Raised TypeError
    end.
Proof.
  intros json_load path. unfold Persistence.load.
  destruct (json_load path) as [doc | e]; [| reflexivity].
  destruct doc; try reflexivity.
  unfold obind, State.from_dict, construct. split; [| split].
  - intros f Hf Hnone.
    destruct (forallb _ kv); [| reflexivity].
    simpl in Hf.
    destruct Hf as [<- | [<- | [<- | [<- | []]]]]; simpl; rewrite ?Hnone;
      repeat match goal with
             | |- context [lookup ?k kv] => destruct (lookup k kv)
             end; reflexivity.
  - intros f Hin Hnot.
    destruct (forallb _ kv) eqn:Hall; [| reflexivity].
    exfalso. apply Hnot. exact (proj1 (all_known _ _) Hall f Hin).
  - intros p s i g Hp Hs Hi Hg Hall.
    rewrite (proj2 (all_known _ _) Hall). simpl. rewrite Hp, Hs, Hi, Hg. reflexivity.
Qed.

(** ** What a restored snapshot keeps *)

Section RestoreProperties.
Context {R : Dice.Random}.

(** With at least one member, and nothing but plain values in the characters
    and the scenes, the restored Director has the party, the story, the cursor
    and the dice of the source; equal dice give equal rolls from then on. *)
Lemma restore_plain_snapshot (d d2 : Director.DM) c p st :
  Director.party d = Some (c :: p) ->
  Director.story d = Some st ->
  Forall (fun c => plain_character c = true) (c :: p) ->
  Forall (fun s => plain_scene s = true) (Story.scenes st) ->
  State.apply_to_dm (State.from_dm d) d2 =
  (Returned tt,
   {| Director.dice := Director.dice d;
      Director.ruleset := Director.ruleset d2;
      Director.party := Director.party d;
      Director.story := Director.story d;
      Director.current_scene_idx := Director.current_scene_idx d |}).
Proof.
  intros Hp Hst Hcs Hss.
  rewrite (apply_snapshot_of_party d d2 c p st Hp Hst), Hp, Hst.
  rewrite (map_fixed Character_asdict (c :: p)).
  - rewrite (map_fixed Scene_rebuilt (Story.scenes st)).
    + destruct st. reflexivity.
    + eapply Forall_impl; [| exact Hss]. apply Scene_rebuilt_plain.
  - eapply Forall_impl; [| exact Hcs]. apply Character_asdict_plain.
Qed.

End RestoreProperties.

(** A member made by the constructor comes back with a dict where its [Stats]
    was: the modifier that the source answers raises in the restored party. *)
Example restored_member_loses_stats :
  Character.stats_modifier Sample.lyra 12 = Returned 1
  /\ exists c,
       Director.party
         (snd (State.apply_to_dm (State.from_dm Sample.with_lyra) (fst Sample.fresh)))
       = Some [c]
       /\ Character.stats_modifier c 12 = Raised AttributeError.
Proof. split; [reflexivity |]. eexists. split; reflexivity. Qed.

(** ** The properties on the sample session *)

Lemma lcg_in_range : Dice.randbelow_in_range Dice.lcg.
Proof.
  intros g n Hn. simpl. unfold Dice.lcg_below. simpl.
  apply Z.mod_pos_bound. exact Hn.
Qed.

Lemma play_next_linear_until_win_witness :
  (exists sc log,
      nth_error (Story.scenes Sample.caves) 0 = Some sc
      /\ Director.play_next Sample.started
         = (Returned tt,
            (Director.set_current_scene_idx 1 (fst Sample.started),
             snd Sample.started ++ Story.EnterScene sc :: log)))
  /\ exists wk,
       Director.play_times 3 Sample.started = (Returned tt, wk)
       /\ Director.current_scene_idx (fst wk) = 3
       /\ wins (snd wk) = 1%nat
       /\ phase_of (fst wk) = Complete.
Proof.
  destruct (play_next_linear_until_win Sample.started Sample.caves []
              eq_refl eq_refl) as [H1 H2].
  split.
  - apply H1. split; [discriminate | reflexivity].
  - apply (H2 eq_refl ltac:(discriminate) 3%nat (le_n 3)).
Defined.

Lemma play_next_before_start_witness :
  Director.play_next Sample.fresh
  = (Raised (RuntimeError "DM.start() must be called first."), Sample.fresh).
Proof. apply play_next_before_start. reflexivity. Defined.

Lemma play_next_when_complete_witness :
  Director.play_next Sample.finished = (Raised IndexError, Sample.finished)
  /\ Director.current_scene_idx (fst (snd (Director.play_next Sample.finished))) = 3
  /\ wins (snd (snd (Director.play_next Sample.finished))) = 1%nat.
Proof. apply (play_next_when_complete Sample.finished). reflexivity. Defined.

Lemma snapshot_cursor_in_range_witness :
  exists l,
    State.story_state (State.from_dm (fst Sample.finished)) = PDict [("scenes", PList l)]
    /\ 0 <= State.current_scene_idx (State.from_dm (fst Sample.finished))
         <= Z.of_nat (List.length l).
Proof.
  exact (snapshot_cursor_in_range Sample.finished
           (reach_play_next _ (reach_play_next _ (reach_play_next _
              (reach_start _ Sample.safe_load "goblin_caves.yml"
                 (reach_init (Some 42))))))).
Defined.

Lemma snapshot_of_empty_party_not_restored_witness :
  State.party (State.from_dm (fst Sample.started)) = PDict []
  /\ State.apply_to_dm (State.from_dm (fst Sample.started)) (fst Sample.fresh)
     = (Raised (KeyError "members"), fst Sample.fresh).
Proof. apply snapshot_of_empty_party_not_restored. reflexivity. Defined.

Lemma roll_valid_expression_witness :
  exists total individual_rolls self',
    Dice.roll (R := Dice.lcg) (L := Dice.cpython310) "2d6+3" (Dice.init (Some 42))
    = (Returned (total, individual_rolls), self')
    /\ Z.of_nat (List.length individual_rolls) = 2
    /\ Forall (fun x => 1 <= x <= 6) individual_rolls
    /\ total = fold_right Z.add 0 individual_rolls + 3.
Proof.
  exact (roll_valid_expression (L := Dice.cpython310) lcg_in_range
           (Decimal.D2 Decimal.Nil) (Decimal.D6 Decimal.Nil)
           (PlusMod (Decimal.D3 Decimal.Nil)) (Dice.init (Some 42))
           eq_refl eq_refl ltac:(discriminate) eq_refl eq_refl eq_refl).
Defined.

Lemma roll_failure_modes_witness :
  Dice.roll (R := Dice.lcg) (L := Dice.cpython310) "2x6" (Dice.init (Some 42))
  = (Raised (ValueError "Invalid dice expression: 2x6"), Dice.init (Some 42))
  /\ Dice.roll (R := Dice.lcg) (L := Dice.cpython310) "2d0" (Dice.init (Some 42))
     = (Raised (ValueError "empty range for randrange() (1, 1, 0)"),
        Dice.init (Some 42)).
Proof.
  split.
  - apply (proj1 (roll_failure_modes (R := Dice.lcg) (L := Dice.cpython310)
                    "2x6" (Dice.init (Some 42)))).
    apply fullmatch_none. reflexivity.
  - destruct (proj2 (roll_failure_modes (R := Dice.lcg) (L := Dice.cpython310)
                       "2d0" (Dice.init (Some 42))))
      as (n & s & m & E & Hn & Hs & Hm & _ & _ & _ & Hin).
    + apply matches_roll_re.
      exists (Decimal.D2 Decimal.Nil), (Decimal.D0 Decimal.Nil), NoMod.
      repeat split; discriminate.
    + pose proof (fullmatch_dice_text n s m Hn Hs Hm) as Hf.
      rewrite <- E in Hf. injection Hf as En Es Em.
      assert (Mm : mod_digits m = EmptyString)
        by (destruct m; [reflexivity | discriminate Em | discriminate Em]).
      assert (Ln : Dice.over_limit (L := Dice.cpython310) (digits n) = false)
        by (rewrite <- En; reflexivity).
      assert (Ls : Dice.over_limit (L := Dice.cpython310) (digits s) = false)
        by (rewrite <- Es; reflexivity).
      assert (Lm : Dice.over_limit (L := Dice.cpython310) (mod_digits m) = false)
        by (rewrite Mm; reflexivity).
      pose proof (int_of_str_digits (L := Dice.cpython310) n Hn) as Vn.
      rewrite Ln, <- En in Vn.
      pose proof (int_of_str_digits (L := Dice.cpython310) s Hs) as Vs.
      rewrite Ls, <- Es in Vs.
      change (Dice.int_of_str "2") with (Returned (A := Z) 2) in Vn.
      change (Dice.int_of_str "0") with (Returned (A := Z) 0) in Vs.
      injection Vn as Vn. injection Vs as Vs.
      apply (proj1 (proj2 (Hin Ln Ls Lm))); [rewrite <- Vn | rewrite <- Vs]; reflexivity.
Defined.

Lemma load_checks_field_names_witness :
  Persistence.load (fun _ => Returned Sample.short_save) "save.json" = Raised TypeError.
Proof.
  apply (proj1 (load_checks_field_names
                  (fun _ => Returned Sample.short_save) "save.json")
           "current_scene_idx").
  - right. right. left. reflexivity.
  - reflexivity.
Defined.

(** ** Where the specification and the code part *)

(** C1. A Director that has just been started has an empty party; its snapshot
    carries an empty [party] dict and cannot be applied: the target Director
    keeps its own party, story and cursor instead of taking those of the
    source. *)
Lemma fresh_start_snapshot_not_applied :
  Director.party (fst Sample.started) = Some []
  /\ Director.story (fst Sample.started) = Some Sample.caves
  /\ State.party (State.from_dm (fst Sample.started)) = PDict []
  /\ State.apply_to_dm (State.from_dm (fst Sample.started)) (fst Sample.fresh)
     = (Raised (KeyError "members"), fst Sample.fresh)
  /\ Director.story (fst Sample.fresh) = None
  /\ Director.current_scene_idx (fst Sample.fresh) = -1.
Proof. repeat split. Qed.

(** C3. The count 2 written with 4300 zeros in front makes a valid
    expression of 4301 digits before the [d]; with the limit of 4300 digits,
    [int] refuses the count and [roll] raises instead of returning two
    rolls. *)
Lemma roll_long_count_raises :
  Sample.long_roll = dice_text Sample.padded_two (Decimal.D6 Decimal.Nil) NoMod
  /\ Z.of_uint Sample.padded_two = 2
  /\ String.length (digits Sample.padded_two) = 4301%nat
  /\ valid_dice_expression Sample.long_roll
  /\ Dice.roll (R := Dice.lcg) (L := Dice.cpython310) Sample.long_roll (Dice.init (Some 42))
     = (Raised (ValueError (Dice.int_limit_message (IntLimit := Dice.cpython310) 4301)),
        Dice.init (Some 42)).
Proof.
  assert (V : Z.of_uint Sample.padded_two = 2) by (vm_compute; reflexivity).
  assert (Len : String.length (digits Sample.padded_two) = 4301%nat)
    by (vm_compute; reflexivity).
  assert (Over : Dice.over_limit (L := Dice.cpython310) (digits Sample.padded_two) = true)
    by (vm_compute; reflexivity).
  assert (Hn : Sample.padded_two <> Decimal.Nil).
  { intros H. apply (f_equal Z.of_uint) in H. rewrite V in H. discriminate H. }
  split; [reflexivity |]. split; [exact V |]. split; [exact Len |]. split.
  - exists Sample.padded_two, (Decimal.D6 Decimal.Nil), NoMod.
    split; [reflexivity |]. rewrite V. repeat split.
  - unfold Sample.long_roll.
    rewrite (roll_dice_text (R := Dice.lcg) (L := Dice.cpython310)
               Sample.padded_two (Decimal.D6 Decimal.Nil) NoMod (Dice.init (Some 42))
               Hn ltac:(discriminate) I).
    rewrite Over, Len. reflexivity.
Qed.

(** C4. ["0d6"] has a count that is not positive, and yet [roll] returns: a
    total of 0 and no rolls. *)
Lemma roll_zero_count_returns :
  ~ valid_dice_expression "0d6"
  /\ Dice.roll (R := Dice.lcg) (L := Dice.cpython310) "0d6" (Dice.init (Some 42))
     = (Returned (0, []), Dice.init (Some 42)).
Proof.
  split; [| reflexivity].
  intros (n & s & m & E & Hn & Hs & Hm).
  assert (Hn' : n <> Decimal.Nil) by (intros ->; discriminate Hn).
  assert (Hs' : s <> Decimal.Nil) by (intros ->; discriminate Hs).
  pose proof (fullmatch_dice_text n s m Hn' Hs' Hm) as Hf.
  rewrite <- E in Hf. injection Hf as En _ _.
  pose proof (int_digits_zero n) as Vn. rewrite <- En in Vn.
  change (Dice.int_digits 0 "0") with (Some 0) in Vn.
  injection Vn as Vn. rewrite <- Vn in Hn. discriminate Hn.
Qed.

(** C5. The snapshot of a new Director has the cursor -1 and no scenes. *)
Lemma snapshot_before_start_cursor :
  reachable Sample.fresh
  /\ State.story_state (State.from_dm (fst Sample.fresh)) = PDict []
  /\ State.current_scene_idx (State.from_dm (fst Sample.fresh)) = -1
  /\ ~ 0 <= State.current_scene_idx (State.from_dm (fst Sample.fresh)).
Proof.
  split; [apply reach_init |]. repeat split. intros H. apply H. reflexivity.
Qed.

(** C6. A complete Director is not active, and [play_next] raises
    [IndexError] on it, not the not-started error. *)
Lemma play_next_complete_raises_index_error :
  phase_of (fst Sample.finished) = Complete
  /\ Director.play_next Sample.finished = (Raised IndexError, Sample.finished)
  /\ forall msg,
       Director.play_next Sample.finished <> (Raised (RuntimeError msg), Sample.finished).
Proof. repeat split. intros msg H. discriminate H. Qed.

(** C7. A document whose fields have the right names and the wrong types is
    loaded into a snapshot. *)
Lemma load_accepts_ill_typed_fields :
  well_formed_save Sample.odd_save = false
  /\ Persistence.load (fun _ => Returned Sample.odd_save) "save.json"
     = Returned {| State.party := PInt 1;
                   State.story_state := PStr "none";
                   State.current_scene_idx := PStr "three";
                   State.rng_state := PNone |}.
Proof. split; reflexivity. Qed.

(** * Further properties of the code *)

(** ** Rolling (core/dice.py) *)

Lemma sum_app (l1 l2 : list Z) : Dice.sum (l1 ++ l2) = Dice.sum l1 + Dice.sum l2.
Proof.
  rewrite !sum_fold_right. induction l1 as [|x l1 IH]; simpl; [reflexivity | lia].
Qed.

Lemma sum_between (lo hi : Z) (l : list Z) :
  Forall (fun x => lo <= x <= hi) l ->
  Z.of_nat (List.length l) * lo <= Dice.sum l <= Z.of_nat (List.length l) * hi.
Proof.
  rewrite sum_fold_right. induction 1 as [|x l Hx _ IH].
  - simpl. lia.
  - cbn [List.length fold_right]. rewrite Nat2Z.inj_succ. nia.
Qed.

Section MoreRollerProperties.
Context {R : Dice.Random} {L : Dice.IntLimit}.

(** Whenever the comprehension returns, it returns [num] draws, each on the
    die; with a die of no side it returns only an empty list. *)
Lemma randints_returned (sides : Z) :
  Dice.randbelow_in_range R ->
  forall (num : nat) (g g' : Dice.rng) (rolls : list Z),
    Dice.randints num sides g = (Returned rolls, g') ->
    List.length rolls = num /\ Forall (fun x => 1 <= x <= sides) rolls.
Proof.
  intros Hlaw. induction num as [|k IH]; intros g g' rolls.
  - simpl. unfold ret. intros [= <- _]. split; [reflexivity | constructor].
  - cbn [Dice.randints]. unfold bind, Dice.randint.
    destruct (Z.ltb_spec 0 (sides + 1 - 1)) as [Hpos | _]; [| discriminate].
    pose proof (Hlaw g (sides + 1 - 1) Hpos) as Hx.
    destruct (Dice.randbelow g (sides + 1 - 1)) as [x g1]. cbn [fst] in Hx.
    remember (1 + x) as y eqn:Ey.
    destruct (Dice.randints k sides g1) as [[xs | e] g2] eqn:Hk; [| discriminate].
    unfold ret. intros [= <- _].
    destruct (IH g1 g2 xs Hk) as [Hlen Hall].
    split; [simpl; rewrite Hlen; reflexivity | constructor; [lia | exact Hall]].
Qed.

Lemma randints_returns (sides : Z) :
  0 < sides ->
  forall (num : nat) (g : Dice.rng),
  exists rolls g', Dice.randints num sides g = (Returned rolls, g').
Proof.
  intros Hs. induction num as [|k IH]; intros g.
  - exists [], g. reflexivity.
  - simpl. unfold bind, Dice.randint.
    replace (0 <? sides + 1 - 1) with true by (symmetry; apply Z.ltb_lt; lia).
    destruct (Dice.randbelow g (sides + 1 - 1)) as [x g1].
    destruct (IH g1) as (rolls & g' & ->).
    eexists. eexists. reflexivity.
Qed.

(** Drawing [a + b] dice is drawing [a] and then [b] from where the first
    draw left the generator. *)
Lemma randints_add (sides : Z) (b : nat) :
  forall (a : nat) (g : Dice.rng),
    Dice.randints (a + b) sides g =
    match Dice.randints a sides g with
    | (Returned r1, g1) =>
        match Dice.randints b sides g1 with
        | (Returned r2, g2) => (Returned (r1 ++ r2), g2)
        | (Raised e, g2) => (Raised e, g2)
        end
    | (Raised e, g1) => (Raised e, g1)
    end.
Proof.
  induction a as [|a IH]; intros g.
  - simpl. unfold ret.
    destruct (Dice.randints b sides g) as [[r2 | e] g2]; reflexivity.
  - simpl. unfold bind, ret.
    destruct (Dice.randint 1 sides g) as [[x | e] g1]; [| reflexivity].
    rewrite IH.
    destruct (Dice.randints a sides g1) as [[r1 | e] g2]; [| reflexivity].
    destruct (Dice.randints b sides g2) as [[r2 | e] g3]; reflexivity.
Qed.

(** X1. Whenever [roll] returns on [NdS], [NdS+M] or [NdS-M], it returns [N]
    rolls and a total between [N + M] and [N * S + M] (with [M] counted
    negative after a minus sign). *)
Theorem roll_total_bounds :
  Dice.randbelow_in_range R ->
  forall (n s : Decimal.uint) (m : modifier) (self self' : Dice.DiceRoller)
         (total : Z) (rolls : list Z),
    n <> Decimal.Nil -> s <> Decimal.Nil -> mod_ok m ->
    Dice.roll (dice_text n s m) self = (Returned (total, rolls), self') ->
    Z.of_nat (List.length rolls) = Z.of_uint n
    /\ Z.of_uint n + mod_value m <= total <= Z.of_uint n * Z.of_uint s + mod_value m.
Proof.
  intros Hlaw n s m self self' total rolls Hn Hs Hm.
  rewrite (roll_dice_text n s m self Hn Hs Hm).
  destruct (Dice.over_limit (digits n)); [discriminate |].
  destruct (Dice.over_limit (digits s)); [discriminate |].
  destruct (Dice.over_limit (mod_digits m)); [discriminate |].
  destruct (Dice.randints _ _ _) as [[rs | e] g] eqn:Hrun; [| discriminate].
  intros [= <- <- _].
  destruct (randints_returned _ Hlaw _ _ _ _ Hrun) as [Hlen Hall].
  pose proof (of_uint_nonneg n) as Hn0.
  assert (Hlen' : Z.of_nat (List.length rs) = Z.of_uint n) by (rewrite Hlen; lia).
  split; [exact Hlen' |].
  pose proof (sum_between 1 (Z.of_uint s) rs Hall) as Hsum.
  rewrite Hlen' in Hsum. lia.
Qed.

(** X2. For numerals that [int] converts, what [roll] does depends on the
    values of the count and of the sides, not on how they are written (leading
    zeros), and the modifier only shifts the total: two expressions with equal
    count and equal sides give the same rolls and leave the generator in the
    same state, or fail alike. *)
Theorem roll_by_values :
  forall (n s n' s' : Decimal.uint) (m m' : modifier) (self : Dice.DiceRoller),
    n <> Decimal.Nil -> s <> Decimal.Nil -> mod_ok m ->
    n' <> Decimal.Nil -> s' <> Decimal.Nil -> mod_ok m' ->
    Dice.over_limit (digits n) = false -> Dice.over_limit (digits s) = false ->
    Dice.over_limit (mod_digits m) = false ->
    Dice.over_limit (digits n') = false -> Dice.over_limit (digits s') = false ->
    Dice.over_limit (mod_digits m') = false ->
    Z.of_uint n = Z.of_uint n' -> Z.of_uint s = Z.of_uint s' ->
    match Dice.roll (dice_text n s m) self with
    | (Returned (total, rolls), self1) =>
        Dice.roll (dice_text n' s' m') self
        = (Returned (total - mod_value m + mod_value m', rolls), self1)
    | (Raised e, self1) =>
        Dice.roll (dice_text n' s' m') self = (Raised e, self1)
    end.
Proof.
  intros n s n' s' m m' self Hn Hs Hm Hn' Hs' Hm' Ln Ls Lm Ln' Ls' Lm' En Es.
  rewrite (roll_dice_text_within n s m self Hn Hs Hm Ln Ls Lm).
  rewrite (roll_dice_text_within n' s' m' self Hn' Hs' Hm' Ln' Ls' Lm'), <- En, <- Es.
  destruct (Dice.randints _ _ _) as [[rs | e] g]; [| reflexivity].
  replace (Dice.sum rs + mod_value m - mod_value m + mod_value m')
    with (Dice.sum rs + mod_value m') by lia.
  reflexivity.
Qed.

(** X3. Rolling [a + b] dice of [S >= 1] sides at once is rolling [a] and
    then [b], when [int] converts the numerals involved: the rolls are those of
    the two calls one after the other, the total is the sum of the two totals,
    and the generator ends in the same state. *)
Theorem roll_splits :
  forall (n a b s : Decimal.uint) (self : Dice.DiceRoller),
    n <> Decimal.Nil -> a <> Decimal.Nil -> b <> Decimal.Nil -> s <> Decimal.Nil ->
    Dice.over_limit (digits n) = false -> Dice.over_limit (digits a) = false ->
    Dice.over_limit (digits b) = false -> Dice.over_limit (digits s) = false ->
    Z.of_uint n = Z.of_uint a + Z.of_uint b ->
    0 < Z.of_uint s ->
    exists t1 r1 self1 t2 r2 self2,
      Dice.roll (dice_text a s NoMod) self = (Returned (t1, r1), self1)
      /\ Dice.roll (dice_text b s NoMod) self1 = (Returned (t2, r2), self2)
      /\ Dice.roll (dice_text n s NoMod) self = (Returned (t1 + t2, r1 ++ r2), self2).
Proof.
  intros n a b s self Hn Ha Hb Hs Ln La Lb Ls En Hpos.
  pose proof (of_uint_nonneg a) as Ha0. pose proof (of_uint_nonneg b) as Hb0.
  assert (Lm : Dice.over_limit (mod_digits NoMod) = false) by reflexivity.
  rewrite (roll_dice_text_within n s NoMod self Hn Hs I Ln Ls Lm).
  rewrite (roll_dice_text_within a s NoMod self Ha Hs I La Ls Lm).
  replace (Z.to_nat (Z.of_uint n))
    with (Z.to_nat (Z.of_uint a) + Z.to_nat (Z.of_uint b))%nat by lia.
  rewrite randints_add.
  destruct (randints_returns _ Hpos (Z.to_nat (Z.of_uint a)) (Dice._rng self))
    as (r1 & g1 & ->).
  destruct (randints_returns _ Hpos (Z.to_nat (Z.of_uint b)) g1) as (r2 & g2 & E2).
  exists (Dice.sum r1 + 0), r1, {| Dice._rng := g1 |}.
  exists (Dice.sum r2 + 0), r2, {| Dice._rng := g2 |}.
  split; [reflexivity |]. split.
  - rewrite (roll_dice_text_within b s NoMod _ Hb Hs I Lb Ls Lm). simpl Dice._rng.
    rewrite E2. reflexivity.
  - rewrite E2. simpl mod_value. rewrite sum_app.
    replace (Dice.sum r1 + Dice.sum r2 + 0)
      with (Dice.sum r1 + 0 + (Dice.sum r2 + 0)) by lia.
    reflexivity.
Qed.

End MoreRollerProperties.

(** ** The Director between calls (core/dm.py) *)

Section MoreDirectorProperties.
Context {R : Dice.Random}.

(** What one [play_next] can change: the cursor, by one step, and the
    messages, by adding a scene entry and possibly the win. *)
Lemma play_next_frame (w : Director.World) :
  Director.dice (fst (snd (Director.play_next w))) = Director.dice (fst w)
  /\ Director.ruleset (fst (snd (Director.play_next w))) = Director.ruleset (fst w)
  /\ Director.party (fst (snd (Director.play_next w))) = Director.party (fst w)
  /\ Director.story (fst (snd (Director.play_next w))) = Director.story (fst w)
  /\ (Director.current_scene_idx (fst w)
      <= Director.current_scene_idx (fst (snd (Director.play_next w)))
      <= Director.current_scene_idx (fst w) + 1)
  /\ exists l,
       snd (snd (Director.play_next w)) = snd w ++ l
       /\ ~ In Story.LoseScreen l.
Proof.
  destruct w as [d log].
  unfold Director.play_next, bind, Director.self_, lift, raise. simpl.
  destruct (Director.story d) as [st|] eqn:Hst;
    [destruct (Director.party d) as [p|] eqn:Hp |].
  - destruct (list_getitem (Story.scenes st) (Director.current_scene_idx d))
      as [sc | e]; simpl.
    + destruct (_ <=? _); simpl;
        do 4 (split; [congruence |]); (split; [lia |]).
      * exists [Story.EnterScene sc; Story.WinScreen].
        split; [rewrite <- app_assoc; reflexivity |].
        simpl. intros [H | [H | []]]; discriminate H.
      * exists [Story.EnterScene sc]. split; [reflexivity |].
        simpl. intros [H | []]; discriminate H.
    + do 4 (split; [congruence |]). split; [lia |].
      exists []. split; [symmetry; apply app_nil_r | tauto].
  - simpl. do 4 (split; [congruence |]). split; [lia |].
    exists []. split; [symmetry; apply app_nil_r | tauto].
  - simpl. do 4 (split; [congruence |]). split; [lia |].
    exists []. split; [symmetry; apply app_nil_r | tauto].
Qed.

Lemma play_times_frame (k : nat) :
  forall w : Director.World,
    Director.dice (fst (snd (Director.play_times k w))) = Director.dice (fst w)
    /\ Director.ruleset (fst (snd (Director.play_times k w))) = Director.ruleset (fst w)
    /\ Director.party (fst (snd (Director.play_times k w))) = Director.party (fst w)
    /\ Director.story (fst (snd (Director.play_times k w))) = Director.story (fst w).
Proof.
  induction k as [|k IH]; intros w.
  - simpl. auto.
  - simpl. unfold bind.
    destruct (play_next_frame w) as (Hd & Hr & Hp & Hs & _).
    destruct (Director.play_next w) as [[[] | e] w1]; simpl in *.
    + destruct (IH w1) as (Hd1 & Hr1 & Hp1 & Hs1).
      repeat split; congruence.
    + repeat split; assumption.
Qed.

(** X4. However many times [play_next] is called, and whether the calls
    return or raise, the Director keeps its dice, rule set, party and story;
    its cursor never moves back and moves on by at most the number of calls;
    the messages shown so far stay, what is added never is the lose screen,
    and the count of wins does not go down. *)
Theorem play_times_keeps_session :
  forall (k : nat) (w : Director.World),
    Director.dice (fst (snd (Director.play_times k w))) = Director.dice (fst w)
    /\ Director.ruleset (fst (snd (Director.play_times k w))) = Director.ruleset (fst w)
    /\ Director.party (fst (snd (Director.play_times k w))) = Director.party (fst w)
    /\ Director.story (fst (snd (Director.play_times k w))) = Director.story (fst w)
    /\ (Director.current_scene_idx (fst w)
        <= Director.current_scene_idx (fst (snd (Director.play_times k w)))
        <= Director.current_scene_idx (fst w) + Z.of_nat k)
    /\ (exists l,
          snd (snd (Director.play_times k w)) = snd w ++ l
          /\ ~ In Story.LoseScreen l)
    /\ (wins (snd w) <= wins (snd (snd (Director.play_times k w))))%nat.
Proof.
  intros k w.
  destruct (play_times_frame k w) as (Hd & Hr & Hp & Hs).
  repeat (split; [assumption |]). clear Hd Hr Hp Hs.
  assert (H : (Director.current_scene_idx (fst w)
               <= Director.current_scene_idx (fst (snd (Director.play_times k w)))
               <= Director.current_scene_idx (fst w) + Z.of_nat k)
              /\ exists l,
                   snd (snd (Director.play_times k w)) = snd w ++ l
                   /\ ~ In Story.LoseScreen l).
  { revert w. induction k as [|k IH]; intros w.
    - simpl. split; [lia |]. exists []. split; [symmetry; apply app_nil_r | tauto].
    - simpl Director.play_times. unfold bind.
      destruct (play_next_frame w) as (_ & _ & _ & _ & Hi & l1 & Hl1 & Hno1).
      destruct (Director.play_next w) as [[[] | e] w1]; simpl in Hi, Hl1 |- *.
      + destruct (IH w1) as (Hi2 & l2 & Hl2 & Hno2).
        split; [lia |]. exists (l1 ++ l2).
        split; [rewrite Hl2, Hl1, app_assoc; reflexivity |].
        intros Hin. apply in_app_or in Hin. tauto.
      + split; [lia |]. exists l1. split; assumption. }
  destruct H as (Hi & l & Hl & Hno).
  split; [exact Hi |]. split; [exists l; split; assumption |].
  rewrite Hl, wins_app. lia.
Qed.

(** X5. A negative cursor counts scenes from the end: with the cursor at
    [-j], [1 <= j <= N], [play_next] enters the scene [N - j], moves the cursor
    to [-j + 1] and does not show the win screen; below [-N] it raises
    [IndexError] and changes nothing. *)
Theorem play_next_negative_cursor :
  forall (w : Director.World) (st : Story.StorySetup) (p : Party.t),
    Director.story (fst w) = Some st ->
    Director.party (fst w) = Some p ->
    Director.current_scene_idx (fst w) < 0 ->
    (- Z.of_nat (List.length (Story.scenes st)) <= Director.current_scene_idx (fst w) ->
     exists sc,
       nth_error (Story.scenes st)
         (Z.to_nat (Director.current_scene_idx (fst w)
                    + Z.of_nat (List.length (Story.scenes st)))) = Some sc
       /\ Director.play_next w =
          (Returned tt,
           (Director.set_current_scene_idx
              (Director.current_scene_idx (fst w) + 1) (fst w),
            snd w ++ [Story.EnterScene sc])))
    /\ (Director.current_scene_idx (fst w) < - Z.of_nat (List.length (Story.scenes st)) ->
        Director.play_next w = (Raised IndexError, w)).
Proof.
  intros [d log] st p Hst Hp Hneg. simpl in *.
  unfold Director.play_next, bind, Director.self_, lift. simpl.
  rewrite Hst, Hp. unfold list_getitem. cbv zeta.
  replace (Director.current_scene_idx d <? 0) with true
    by (symmetry; apply Z.ltb_lt; exact Hneg).
  split.
  - intros Hin.
    replace (Director.current_scene_idx d + Z.of_nat (List.length (Story.scenes st)) <? 0)
      with false by (symmetry; apply Z.ltb_ge; lia).
    replace (Z.of_nat (List.length (Story.scenes st))
             <=? Director.current_scene_idx d + Z.of_nat (List.length (Story.scenes st)))
      with false by (symmetry; apply Z.leb_gt; lia).
    simpl orb. cbv iota.
    destruct (nth_error (Story.scenes st) _) as [sc |] eqn:Hnth.
    + exists sc. split; [reflexivity |]. simpl.
      replace (Z.of_nat (List.length (Story.scenes st))
               <=? Director.current_scene_idx d + 1)
        with false by (symmetry; apply Z.leb_gt; lia).
      reflexivity.
    + apply nth_error_None in Hnth. lia.
  - intros Hout.
    replace (Director.current_scene_idx d + Z.of_nat (List.length (Story.scenes st)) <? 0)
      with true by (symmetry; apply Z.ltb_lt; lia).
    reflexivity.
Qed.

(** X6. [start] begins a new session whatever state the Director was in:
    once the campaign file loads, with at least one scene, as many
    [play_next] calls as there are scenes all return, leaving an empty party,
    the loaded story, the cursor at the scene count, the dice as they were,
    and exactly one more win than before. *)
Theorem start_then_play_through :
  forall (safe_load : string -> outcome pyval) (path : string)
         (w : Director.World) (st : Story.StorySetup),
    Story.load safe_load path = Returned st ->
    Story.scenes st <> [] ->
    exists log,
      Director.play_times (List.length (Story.scenes st))
        (snd (Director.start safe_load path w))
      = (Returned tt,
         ({| Director.dice := Director.dice (fst w);
             Director.ruleset := Director.ruleset (fst w);
             Director.party := Some [];
             Director.story := Some st;
             Director.current_scene_idx := Z.of_nat (List.length (Story.scenes st)) |},
          log))
      /\ wins log = S (wins (snd w)).
Proof.
  intros safe_load path w st Hload Hne.
  pose proof (start_run safe_load path w) as Hs. rewrite Hload in Hs. rewrite Hs.
  assert (HN : (0 < List.length (Story.scenes st))%nat)
    by (destruct (Story.scenes st); [congruence | simpl; lia]).
  match goal with
  | |- context [Director.play_times _ (snd (_, ?w1))] =>
      destruct (play_times_run st [] (List.length (Story.scenes st)) w1)
        as (log & Hrun & Hwins); try reflexivity; simpl; try lia
  end.
  exists log. simpl snd. rewrite Hrun. split; [reflexivity |].
  rewrite Hwins. simpl fst. simpl snd. simpl Director.current_scene_idx.
  replace (0 <? Z.of_nat (List.length (Story.scenes st))) with true
    by (symmetry; apply Z.ltb_lt; lia).
  rewrite Z.add_0_l, Z.eqb_refl. simpl. lia.
Qed.

(** X7. A campaign file with an empty scene list loads and starts, but the
    session is over at once: the Director is complete without the win screen
    ever being shown, and [play_next] raises [IndexError]. *)
Theorem empty_story_never_plays :
  forall (safe_load : string -> outcome pyval) (path : string)
         (w : Director.World) (st : Story.StorySetup),
    Story.load safe_load path = Returned st ->
    Story.scenes st = [] ->
    fst (Director.start safe_load path w) = Returned tt
    /\ phase_of (fst (snd (Director.start safe_load path w))) = Complete
    /\ snd (snd (Director.start safe_load path w)) = snd w
    /\ Director.play_next (snd (Director.start safe_load path w))
       = (Raised IndexError, snd (Director.start safe_load path w)).
Proof.
  intros safe_load path w st Hload Hnil.
  pose proof (start_run safe_load path w) as Hs. rewrite Hload in Hs. rewrite Hs.
  simpl. unfold phase_of. simpl. rewrite Hnil. simpl.
  repeat split.
  unfold Director.play_next, bind, Director.self_, lift. simpl. rewrite Hnil.
  reflexivity.
Qed.

(** X8. Nothing a session can do shows the lose screen: no message of a
    reachable Director is the lose screen. *)
Theorem reachable_never_loses :
  forall w : Director.World,
    reachable w -> Forall (fun e => e <> Story.LoseScreen) (snd w).
Proof.
  intros w Hw. apply Forall_forall. intros e He ->. revert He.
  induction Hw as [seed | w safe_load path Hw IH | w Hw IH | w p p' Hw IH Hp
                  | w d Hw IH | w w' Hw IH Hw' IH']; simpl.
  - tauto.
  - pose proof (start_run safe_load path w) as Hs.
    destruct (Story.load safe_load path); rewrite Hs; exact IH.
  - destruct (play_next_frame w) as (_ & _ & _ & _ & _ & l & Hl & Hno).
    rewrite Hl. intros Hin. apply in_app_or in Hin. tauto.
  - exact IH.
  - exact IH.
  - exact IH'.
Qed.

End MoreDirectorProperties.

(** ** Dicts and dataclasses (core/character.py, core/party.py,
    content/story_setup.py, core/state.py) *)

Lemma asdict_inner_is_plain : forall v : pyval, plain (asdict_inner v) = true.
Proof.
  fix IH 1. intros v; destruct v; simpl; try reflexivity.
  - induction xs as [|x xs IHxs]; simpl; [reflexivity |].
    rewrite (IH x), IHxs. reflexivity.
  - induction kv as [|[k x] kv IHkv]; simpl; [reflexivity |].
    rewrite (IH x), IHkv. reflexivity.
  - rewrite !IH. reflexivity.
  - rewrite !IH. reflexivity.
Qed.

Lemma asdict_inner_idem (v : pyval) : asdict_inner (asdict_inner v) = asdict_inner v.
Proof. apply asdict_inner_plain, asdict_inner_is_plain. Qed.

Lemma Character_asdict_idem (c : Character.Character) :
  Character_asdict (Character_asdict c) = Character_asdict c.
Proof. unfold Character_asdict. simpl. rewrite !asdict_inner_idem. reflexivity. Qed.

Lemma Character_to_dict_asdict (c : Character.Character) :
  Character.to_dict (Character_asdict c) = Character.to_dict c.
Proof. unfold Character.to_dict. simpl. rewrite !asdict_inner_idem. reflexivity. Qed.

Lemma Scene_rebuilt_idem (s : Story.Scene) : Scene_rebuilt (Scene_rebuilt s) = Scene_rebuilt s.
Proof. unfold Scene_rebuilt. simpl. rewrite !asdict_inner_idem. reflexivity. Qed.

Lemma Scene_asdict_rebuilt (s : Story.Scene) :
  Story.Scene_asdict (Scene_rebuilt s) = Story.Scene_asdict s.
Proof. unfold Story.Scene_asdict. simpl. rewrite !asdict_inner_idem. reflexivity. Qed.

Lemma map_map_same {A B} (f : A -> A) (g : A -> B) (l : list A) :
  (forall a, g (f a) = g a) -> map g (map f l) = map g l.
Proof. intros H. rewrite map_map. apply map_ext. exact H. Qed.

Lemma omap_inv {A B} (f : A -> outcome B) (l : list A) :
  forall l', omap f l = Returned l' -> Forall2 (fun a b => f a = Returned b) l l'.
Proof.
  induction l as [|a l IH]; simpl; intros l' H.
  - injection H as <-. constructor.
  - destruct (f a) as [b | e] eqn:Ha; [| discriminate H]. simpl in H.
    destruct (omap f l) as [bs | e]; [| discriminate H]. simpl in H.
    injection H as <-. constructor; [exact Ha | apply IH; reflexivity].
Qed.

Lemma lookup_plain (k : string) (kv : list (string * pyval)) (v : pyval) :
  forallb (fun p => plain (snd p)) kv = true -> lookup k kv = Some v -> plain v = true.
Proof.
  induction kv as [|[k' x] kv IH]; simpl; [discriminate |].
  intros H. apply andb_prop in H. destruct H as [Hx Hkv].
  destruct (String.eqb k k'); [intros [= <-]; exact Hx | apply IH, Hkv].
Qed.

Lemma iter_plain (v : pyval) (items : list pyval) :
  plain v = true -> iter v = Returned items -> Forall (fun x => plain x = true) items.
Proof.
  destruct v; simpl; try discriminate; intros Hv [= <-].
  - unfold chars. apply Forall_forall. intros x Hx.
    apply in_map_iff in Hx. destruct Hx as (c & <- & _). reflexivity.
  - apply Forall_forall. intros x Hx. rewrite forallb_forall in Hv. apply Hv, Hx.
  - apply Forall_forall. intros x Hx.
    apply in_map_iff in Hx. destruct Hx as (p & <- & _). reflexivity.
Qed.

(** X9. [Scene( **s )] accepts exactly the dicts that have an [id] and a
    [text] and no key besides [id], [text], [monsters] and [choices]; the scene
    holds the given values, and [[]] and [{}] for an absent [monsters] and
    [choices]. *)
Theorem Scene_new_accepts :
  forall (kv : list (string * pyval)) (sc : Story.Scene),
    Story.Scene_new (PDict kv) = Returned sc <->
    (forall k, In k (map fst kv) -> In k ["id"; "text"; "monsters"; "choices"])
    /\ lookup "id" kv = Some (Story.id sc)
    /\ lookup "text" kv = Some (Story.text sc)
    /\ Story.monsters sc
       = match lookup "monsters" kv with Some v => v | None => PList [] end
    /\ Story.choices sc
       = match lookup "choices" kv with Some v => v | None => PDict [] end.
Proof.
  intros kv sc. unfold Story.Scene_new, construct.
  change ["id"; "text"; "monsters"; "choices"] with (map fst Story.Scene_fields).
  rewrite <- all_known. split.
  - destruct (forallb _ kv); [| discriminate]. simpl.
    destruct (lookup "id" kv); [| discriminate].
    destruct (lookup "text" kv); [| discriminate].
    destruct (lookup "monsters" kv); destruct (lookup "choices" kv);
      simpl; intros [= <-]; simpl; auto.
  - intros (-> & Hi & Ht & Hm & Hc). simpl. rewrite Hi, Ht.
    destruct sc as [i t m c]. simpl in *. subst m c.
    destruct (lookup "monsters" kv); destruct (lookup "choices" kv); reflexivity.
Qed.

(** X10. [Character.from_dict] accepts exactly the dicts that have a [name]
    and no key besides the five fields; the character holds the given values
    and the class defaults for the fields that are absent: the shared
    [Stats()], 10 hit points, no experience, the shared empty inventory. *)
Theorem Character_from_dict_accepts :
  forall (kv : list (string * pyval)) (ch : Character.Character),
    Character.from_dict (PDict kv) = Returned ch <->
    (forall k, In k (map fst kv) -> In k ["name"; "stats"; "hp"; "xp"; "inventory"])
    /\ lookup "name" kv = Some (Character.name ch)
    /\ Character.stats ch
       = match lookup "stats" kv with Some v => v | None => Character.Stats_default end
    /\ Character.hp ch
       = match lookup "hp" kv with Some v => v | None => PInt 10 end
    /\ Character.xp ch
       = match lookup "xp" kv with Some v => v | None => PInt 0 end
    /\ Character.inventory ch
       = match lookup "inventory" kv with
         | Some v => v
         | None => PInventory (PList []) (PInt 0)
         end.
Proof.
  intros kv ch. unfold Character.from_dict, construct.
  change ["name"; "stats"; "hp"; "xp"; "inventory"] with (map fst Character.fields).
  rewrite <- all_known. split.
  - destruct (forallb _ kv); [| discriminate]. simpl.
    destruct (lookup "name" kv); [| discriminate].
    destruct (lookup "stats" kv); destruct (lookup "hp" kv);
      destruct (lookup "xp" kv); destruct (lookup "inventory" kv);
      simpl; intros [= <-]; simpl; auto 10.
  - intros (-> & Hn & Hs & Hh & Hx & Hi). simpl. rewrite Hn.
    destruct ch as [n s h x i]. simpl in *. subst s h x i.
    destruct (lookup "stats" kv); destruct (lookup "hp" kv);
      destruct (lookup "xp" kv); destruct (lookup "inventory" kv); reflexivity.
Qed.

(** X11. A party always comes back from its own dict, with as many members;
    the members may differ from the originals (their fields have gone through
    [asdict]), but they serialise to the same dict, and from then on the round
    trip changes nothing. *)
Theorem party_dict_round_trip :
  forall p : Party.t,
    exists p',
      Party.from_dict (Party.to_dict p) = Returned p'
      /\ List.length p' = List.length p
      /\ Party.to_dict p' = Party.to_dict p
      /\ Party.from_dict (Party.to_dict p') = Returned p'.
Proof.
  intros p. exists (map Character_asdict p).
  split; [apply Party_from_to_dict |]. split; [apply length_map |]. split.
  - unfold Party.to_dict.
    rewrite (map_map_same _ _ _ Character_to_dict_asdict). reflexivity.
  - rewrite Party_from_to_dict.
    rewrite (map_map_same _ _ _ Character_asdict_idem). reflexivity.
Qed.

(** X12. A story always comes back from its own dict, with as many scenes in
    the same order, and serialises to the same dict again. *)
Theorem story_dict_round_trip :
  forall st : Story.StorySetup,
    exists st',
      Story.from_dict (Story.to_dict st) = Returned st'
      /\ List.length (Story.scenes st') = List.length (Story.scenes st)
      /\ map Story.id (Story.scenes st') = map asdict_inner (map Story.id (Story.scenes st))
      /\ Story.to_dict st' = Story.to_dict st
      /\ Story.from_dict (Story.to_dict st') = Returned st'.
Proof.
  intros st. exists {| Story.scenes := map Scene_rebuilt (Story.scenes st) |}.
  split; [apply Story_from_to_dict |]. simpl.
  split; [apply length_map |]. split; [rewrite !map_map; reflexivity |]. split.
  - unfold Story.to_dict. simpl.
    rewrite (map_map_same _ _ _ Scene_asdict_rebuilt). reflexivity.
  - rewrite Story_from_to_dict. simpl.
    rewrite (map_map_same _ _ _ Scene_rebuilt_idem). reflexivity.
Qed.

Lemma Scene_new_plain (item : pyval) (sc : Story.Scene) :
  plain item = true -> Story.Scene_new item = Returned sc -> plain_scene sc = true.
Proof.
  intros Hp H. destruct item; try discriminate H. simpl plain in Hp.
  unfold Story.Scene_new, construct in H.
  destruct (forallb (fun p => known Story.Scene_fields (fst p)) kv);
    simpl in H; [| discriminate H].
  destruct (lookup "id" kv) as [i|] eqn:Hi; simpl in H; [| discriminate H].
  destruct (lookup "text" kv) as [t|] eqn:Ht; simpl in H; [| discriminate H].
  pose proof (lookup_plain _ _ _ Hp Hi) as Pi.
  pose proof (lookup_plain _ _ _ Hp Ht) as Pt.
  unfold plain_scene.
  destruct (lookup "monsters" kv) as [m|] eqn:Hm;
    destruct (lookup "choices" kv) as [c|] eqn:Hc;
    simpl in H; injection H as <-; simpl;
    rewrite Pi, Pt, ?(lookup_plain _ _ _ Hp Hm), ?(lookup_plain _ _ _ Hp Hc);
    reflexivity.
Qed.

(** What [load] has read when it returns. *)
Lemma load_inv safe_load path (st : Story.StorySetup) :
  Story.load safe_load path = Returned st ->
  exists kv v items,
    safe_load path = Returned (PDict kv)
    /\ lookup "scenes" kv = Some v
    /\ iter v = Returned items
    /\ Forall2 (fun item sc => Story.Scene_new item = Returned sc)
         items (Story.scenes st).
Proof.
  unfold Story.load. intros H.
  destruct (safe_load path) as [raw | e]; simpl in H; [| discriminate H].
  unfold getitem in H. destruct raw; simpl in H; try discriminate H.
  destruct (lookup "scenes" kv) as [v|] eqn:Hv; simpl in H; [| discriminate H].
  destruct (iter v) as [items | e] eqn:Hit; simpl in H; [| discriminate H].
  destruct (omap Story.Scene_new items) as [l | e] eqn:Hl; simpl in H;
    [| discriminate H].
  injection H as <-. exists kv, v, items. simpl.
  split; [reflexivity |]. split; [exact Hv |]. split; [exact Hit |].
  apply omap_inv, Hl.
Qed.

(** X14. The story that [load] read from a document comes back from its own
    dict exactly: for the stories a Director plays, [to_dict] and [from_dict]
    are inverse. *)
Theorem loaded_story_round_trip :
  forall (safe_load : string -> outcome pyval) (path : string)
         (raw : pyval) (st : Story.StorySetup),
    safe_load path = Returned raw ->
    plain raw = true ->
    Story.load safe_load path = Returned st ->
    Story.from_dict (Story.to_dict st) = Returned st.
Proof.
  intros safe_load path raw st Hraw Hplain Hload.
  destruct (load_inv _ _ _ Hload) as (kv & v & items & Hd & Hv & Hi & Hall).
  rewrite Hraw in Hd. injection Hd as ->. simpl in Hplain.
  pose proof (iter_plain _ _ (lookup_plain _ _ _ Hplain Hv) Hi) as Hitems.
  rewrite Story_from_to_dict. rewrite map_fixed; [destruct st; reflexivity |].
  clear Hload Hi. induction Hall as [|item sc items scs Hsc _ IH]; constructor.
  - apply Scene_rebuilt_plain. inversion Hitems; subst.
    eapply Scene_new_plain; eassumption.
  - apply IH. inversion Hitems; assumption.
Qed.

(** ** Party queries (core/party.py) *)

Lemma gt_zero_asdict (v : pyval) : Party.gt_zero (asdict_inner v) = Party.gt_zero v.
Proof. destruct v; reflexivity. Qed.

Lemma any_alive_asdict (p : Party.t) :
  Party.any_alive (map Character_asdict p) = Party.any_alive p.
Proof.
  induction p as [|c p IH]; simpl; [reflexivity |].
  rewrite gt_zero_asdict, IH. reflexivity.
Qed.

(** X15. When every member's hit points are an integer, [any_alive] returns,
    and returns true exactly when some member has more than 0 hit points; an
    empty party has nobody alive. *)
Theorem any_alive_of_int_hp :
  forall (p : Party.t) (hps : list Z),
    map Character.hp p = map PInt hps ->
    Party.any_alive p = Returned (existsb (fun h => 0 <? h) hps)
    /\ (Party.any_alive p = Returned true <-> exists h, In h hps /\ 0 < h).
Proof.
  intros p hps H.
  assert (E : Party.any_alive p = Returned (existsb (fun h => 0 <? h) hps)).
  { revert hps H. induction p as [|c p IH]; intros [|h hps] H; try discriminate H.
    - reflexivity.
    - simpl in H. injection H as Hc Hp. simpl. rewrite Hc. simpl.
      destruct (0 <? h); [reflexivity | apply IH, Hp]. }
  split; [exact E |]. rewrite E. split.
  - intros [= Hex]. apply existsb_exists in Hex. destruct Hex as (h & Hin & Hh).
    exists h. split; [exact Hin | apply Z.ltb_lt, Hh].
  - intros (h & Hin & Hh). f_equal. apply existsb_exists.
    exists h. split; [exact Hin | apply Z.ltb_lt, Hh].
Qed.

(** X16. [any_alive] stops at the first member who is alive: after members
    with integer hit points of 0 or less, a member with positive hit points
    makes the answer true whatever the rest of the party holds, while a member
    whose hit points are [None] or a string makes the call raise
    [TypeError]. *)
Theorem any_alive_stops_early :
  forall (fallen : Party.t) (ch : Character.Character) (rest : Party.t),
    Forall (fun c => exists n, Character.hp c = PInt n /\ n <= 0) fallen ->
    (forall h, Character.hp ch = PInt h -> 0 < h ->
               Party.any_alive (fallen ++ ch :: rest) = Returned true)
    /\ (Character.hp ch = PNone \/ (exists s, Character.hp ch = PStr s) ->
        Party.any_alive (fallen ++ ch :: rest) = Raised TypeError).
Proof.
  intros fallen ch rest Hf.
  induction Hf as [|c fallen (n & Hn & Hle) _ IH]; simpl.
  - split.
    + intros h Hh Hpos. rewrite Hh. simpl.
      replace (0 <? h) with true by (symmetry; apply Z.ltb_lt; exact Hpos).
      reflexivity.
    + intros [H | (s & H)]; rewrite H; reflexivity.
  - rewrite Hn. simpl.
    replace (0 <? n) with false by (symmetry; apply Z.ltb_ge; exact Hle).
    exact IH.
Qed.

(** X17. Saving and restoring a party does not change who is alive:
    [any_alive] gives the same answer, or raises alike, on the party read back
    from its dict. *)
Theorem any_alive_restored :
  forall p : Party.t,
    exists p',
      Party.from_dict (Party.to_dict p) = Returned p'
      /\ Party.any_alive p' = Party.any_alive p.
Proof.
  intros p. exists (map Character_asdict p).
  split; [apply Party_from_to_dict | apply any_alive_asdict].
Qed.

(** ** Snapshots, once more (core/state.py) *)

(** X18. A snapshot read from a document of plain values writes back the
    values it was read from: [to_dict] has the document's four fields, and
    reading that dict gives the same snapshot. *)
Theorem snapshot_dict_round_trip :
  forall (kv : list (string * pyval)) (gs : State.GameState pyval pyval),
    plain (PDict kv) = true ->
    State.from_dict (PDict kv) = Returned gs ->
    (forall k, In k ["party"; "story_state"; "current_scene_idx"; "rng_state"] ->
               getitem (State.to_dict gs) k = getitem (PDict kv) k)
    /\ State.from_dict (State.to_dict gs) = Returned gs.
Proof.
  intros kv gs Hp H. simpl plain in Hp.
  unfold State.from_dict, construct in H.
  destruct (forallb (fun p => known State.fields (fst p)) kv);
    simpl in H; [| discriminate H].
  destruct (lookup "party" kv) as [p|] eqn:E1; simpl in H; [| discriminate H].
  destruct (lookup "story_state" kv) as [s|] eqn:E2; simpl in H; [| discriminate H].
  destruct (lookup "current_scene_idx" kv) as [i|] eqn:E3; simpl in H; [| discriminate H].
  destruct (lookup "rng_state" kv) as [g|] eqn:E4; simpl in H; [| discriminate H].
  injection H as <-.
  unfold State.to_dict. simpl.
  rewrite (asdict_inner_plain p (lookup_plain _ _ _ Hp E1)).
  rewrite (asdict_inner_plain s (lookup_plain _ _ _ Hp E2)).
  rewrite (asdict_inner_plain i (lookup_plain _ _ _ Hp E3)).
  rewrite (asdict_inner_plain g (lookup_plain _ _ _ Hp E4)).
  split; [| reflexivity].
  intros k [<- | [<- | [<- | [<- | []]]]]; simpl;
    rewrite ?E1, ?E2, ?E3, ?E4; reflexivity.
Qed.

Section MoreSnapshotProperties.
Context {R : Dice.Random}.

(** X19. [apply_to_dm] is not all-or-nothing: when the snapshot's party can
    be read and its story cannot, the call raises the story's error after
    having replaced the Director's party; the story, the cursor and the dice
    are still those from before the call. *)
Theorem apply_to_dm_stops_half_way :
  forall (gs : State.GameState Z Dice.rng) (d2 : Director.DM) (p : Party.t) (e : exn),
    Party.from_dict (State.party gs) = Returned p ->
    Story.from_dict (State.story_state gs) = Raised e ->
    State.apply_to_dm gs d2 =
    (Raised e,
     {| Director.dice := Director.dice d2;
        Director.ruleset := Director.ruleset d2;
        Director.party := Some p;
        Director.story := Director.story d2;
        Director.current_scene_idx := Director.current_scene_idx d2 |}).
Proof.
  intros gs d2 p e Hp Hs.
  unfold State.apply_to_dm, bind, lift, State.assign. rewrite Hp, Hs. reflexivity.
Qed.

(** X20. Restoring a snapshot rewinds the session: take the snapshot of a
    Director with at least one member and plain values in party and story,
    call [play_next] any number of times, apply the snapshot to the Director
    as it then is, and it is exactly the Director the snapshot was taken
    from. *)
Theorem restore_rewinds :
  forall (d : Director.DM) (log : list Story.event) (k : nat)
         (c : Character.Character) (p : Party.t) (st : Story.StorySetup),
    Director.party d = Some (c :: p) ->
    Director.story d = Some st ->
    Forall (fun c => plain_character c = true) (c :: p) ->
    Forall (fun s => plain_scene s = true) (Story.scenes st) ->
    State.apply_to_dm (State.from_dm d)
      (fst (snd (Director.play_times k (d, log))))
    = (Returned tt, d).
Proof.
  intros d log k c p st Hp Hst Hcs Hss.
  rewrite (restore_plain_snapshot d _ c p st Hp Hst Hcs Hss).
  destruct (play_times_frame k (d, log)) as (_ & Hr & _ & _).
  rewrite Hr. destruct d. reflexivity.
Qed.

End MoreSnapshotProperties.

(** ** Characters (models/character.py) *)

(** X21. Two more points of an ability score are one more point of modifier,
    a higher score never has a lower modifier, and the scores from 1 to 30
    have the modifiers from -5 to +10. *)
Theorem ability_modifier_steps :
  forall a b : Z,
    Models.ability_modifier (a + 2) = Models.ability_modifier a + 1
    /\ (a <= b -> Models.ability_modifier a <= Models.ability_modifier b)
    /\ (1 <= a <= 30 -> -5 <= Models.ability_modifier a <= 10).
Proof.
  intros a b. unfold Models.ability_modifier. split; [| split].
  - replace (a + 2 - 10) with (a - 10 + 1 * 2) by lia.
    rewrite Z.div_add by lia. reflexivity.
  - intros H. apply Z.div_le_mono; lia.
  - intros H.
    pose proof (Z.mul_div_le (a - 10) 2). pose proof (Z.mul_succ_div_gt (a - 10) 2).
    lia.
Qed.

(** X22. [level_up] returns, adds one to the level and leaves the name, the
    race, the class, the abilities and [max_hp] alone; the proficiency bonus
    of a character that satisfies the invariant goes up by one exactly when
    the level it leaves is a multiple of 4, and stays otherwise. *)
Theorem level_up_effect :
  forall c : Models.Character,
    exists c',
      Models.level_up c = (Returned tt, c')
      /\ Models.level c' = Models.level c + 1
      /\ Models.name c' = Models.name c
      /\ Models.race c' = Models.race c
      /\ Models.char_class c' = Models.char_class c
      /\ Models.abilities c' = Models.abilities c
      /\ Models.max_hp c' = Models.max_hp c
      /\ (Models.proficiency_bonus c = 2 + (Models.level c - 1) / 4 ->
          Models.proficiency_bonus c'
          = Models.proficiency_bonus c
            + (if Models.level c mod 4 =? 0 then 1 else 0)).
Proof.
  intros c. eexists. split; [apply level_up_run |].
  cbn [Models.level Models.name Models.race Models.char_class Models.abilities
       Models.max_hp Models.proficiency_bonus].
  repeat (split; [reflexivity |]).
  intros ->.
  pose proof (Z.div_mod (Models.level c) 4 ltac:(lia)) as Hdm.
  pose proof (Z.mod_pos_bound (Models.level c) 4 ltac:(lia)) as Hb.
  remember (Models.level c / 4) as q eqn:Eq. remember (Models.level c mod 4) as r eqn:Er.
  clear Eq Er.
  replace (Models.level c + 1 - 1) with (r + q * 4) by lia.
  replace (Models.level c - 1) with (r - 1 + q * 4) by lia.
  rewrite !Z.div_add by lia.
  destruct (Z.eqb_spec r 0) as [-> | Hr].
  - change (0 / 4) with 0. change ((0 - 1) / 4) with (-1). lia.
  - rewrite (Z.div_small r 4), (Z.div_small (r - 1) 4) by lia. lia.
Qed.

Lemma abilities_get_default (a : Models.Ability) :
  Models.abilities_get Models.default_abilities a = Returned 10.
Proof. destruct a; reflexivity. Qed.

Lemma Ability_eqb_eq (a b : Models.Ability) : Models.Ability_eqb a b = true -> a = b.
Proof. destruct a, b; simpl; intros H; try reflexivity; discriminate H. Qed.

Lemma abilities_get_missing (d : list (Models.Ability * Z)) (a : Models.Ability) :
  ~ In a (map fst d) ->
  Models.abilities_get d a = Raised (KeyError (Models.Ability_value a)).
Proof.
  induction d as [|[b v] d IH]; simpl; intros H; [reflexivity |].
  destruct (Models.Ability_eqb a b) eqn:E.
  - exfalso. apply H. left. symmetry. apply Ability_eqb_eq, E.
  - apply IH. tauto.
Qed.

(** X23. [Ability.list] names each of the six abilities once, and a character
    made with the default abilities, at any level from 1, has the modifier 0
    for every one of them, so its initiative is 0; a character asked for the
    modifier of an ability that its [abilities] dict lacks raises [KeyError]. *)
Theorem default_abilities_modifiers :
  forall (name race char_class : string) (level : Z) (max_hp : option Z),
    1 <= level ->
    NoDup Models.Ability_list
    /\ (forall a, In a Models.Ability_list)
    /\ exists c,
         Models.new name race char_class level Models.default_abilities max_hp
         = Returned c
         /\ (forall a, Models.ability_mod c a = Returned 0)
         /\ Models.initiative c = Returned 0
         /\ forall c' a,
              (In a (map fst (Models.abilities c')) -> False) ->
              Models.ability_mod c' a = Raised (KeyError (Models.Ability_value a)).
Proof.
  intros name race char_class level max_hp Hl. split; [| split].
  - unfold Models.Ability_list.
    repeat (constructor; [simpl; intros H; repeat destruct H as [H | H];
                          try discriminate H; try contradiction |]).
    constructor.
  - intros a. destruct a; simpl; tauto.
  - unfold Models.new, Models.__post_init__, bind, get. simpl.
    replace (level <? 1) with false by (symmetry; apply Z.ltb_ge; exact Hl).
    simpl. eexists. split; [reflexivity |]. split; [| split].
    + intros a. unfold Models.ability_mod. simpl Models.abilities.
      rewrite abilities_get_default. reflexivity.
    + unfold Models.initiative, Models.ability_mod. simpl Models.abilities.
      rewrite abilities_get_default. reflexivity.
    + intros c' a Hc. unfold Models.ability_mod.
      rewrite abilities_get_missing by exact Hc. reflexivity.
Qed.

(** ** The further properties on the sample session *)

Lemma roll_total_bounds_witness :
  Z.of_nat (List.length [2; 6; 6]) = 3 /\ 3 + 2 <= 16 <= 3 * 6 + 2.
Proof.
  exact (roll_total_bounds (R := Dice.lcg) (L := Dice.cpython310) lcg_in_range
           (Decimal.D3 Decimal.Nil) (Decimal.D6 Decimal.Nil)
           (PlusMod (Decimal.D2 Decimal.Nil))
           (Dice.init (Some 42))
           (Dice.Build_DiceRoller (R := Dice.lcg) 1000676753) 16 [2; 6; 6]
           ltac:(discriminate) ltac:(discriminate) ltac:(discriminate) eq_refl).
Defined.

Lemma roll_by_values_witness :
  match Dice.roll (R := Dice.lcg) (L := Dice.cpython310) "02d6+1" (Dice.init (Some 42)) with
  | (Returned (total, rolls), self1) =>
      Dice.roll (R := Dice.lcg) (L := Dice.cpython310) "2d06-3" (Dice.init (Some 42))
      = (Returned (total - 1 + -3, rolls), self1)
  | (Raised e, self1) =>
      Dice.roll (R := Dice.lcg) (L := Dice.cpython310) "2d06-3" (Dice.init (Some 42))
      = (Raised e, self1)
  end.
Proof.
  exact (roll_by_values (R := Dice.lcg) (L := Dice.cpython310)
           (Decimal.D0 (Decimal.D2 Decimal.Nil)) (Decimal.D6 Decimal.Nil)
           (Decimal.D2 Decimal.Nil) (Decimal.D0 (Decimal.D6 Decimal.Nil))
           (PlusMod (Decimal.D1 Decimal.Nil)) (MinusMod (Decimal.D3 Decimal.Nil))
           (Dice.init (Some 42))
           ltac:(discriminate) ltac:(discriminate) ltac:(discriminate)
           ltac:(discriminate) ltac:(discriminate) ltac:(discriminate)
           eq_refl eq_refl eq_refl eq_refl eq_refl eq_refl
           eq_refl eq_refl).
Defined.

Lemma roll_splits_witness :
  exists t1 r1 self1 t2 r2 self2,
    Dice.roll (R := Dice.lcg) (L := Dice.cpython310) "2d6" (Dice.init (Some 42))
    = (Returned (t1, r1), self1)
    /\ Dice.roll (L := Dice.cpython310) "3d6" self1 = (Returned (t2, r2), self2)
    /\ Dice.roll (L := Dice.cpython310) "5d6" (Dice.init (Some 42))
       = (Returned (t1 + t2, r1 ++ r2), self2).
Proof.
  exact (roll_splits (R := Dice.lcg) (L := Dice.cpython310)
           (Decimal.D5 Decimal.Nil) (Decimal.D2 Decimal.Nil)
           (Decimal.D3 Decimal.Nil) (Decimal.D6 Decimal.Nil) (Dice.init (Some 42))
           ltac:(discriminate) ltac:(discriminate) ltac:(discriminate)
           ltac:(discriminate) eq_refl eq_refl eq_refl eq_refl eq_refl eq_refl).
Defined.

Lemma play_next_negative_cursor_witness :
  exists sc,
    nth_error (Story.scenes Sample.caves) 2 = Some sc
    /\ Director.play_next Sample.rewound
       = (Returned tt,
          (Director.set_current_scene_idx 0 (fst Sample.rewound),
           [Story.EnterScene sc])).
Proof.
  apply (proj1 (play_next_negative_cursor Sample.rewound Sample.caves []
                  eq_refl eq_refl eq_refl)).
  discriminate.
Defined.

Lemma start_then_play_through_witness :
  exists log,
    Director.play_times 3
      (snd (Director.start Sample.safe_load "goblin_caves.yml" Sample.finished))
    = (Returned tt,
       ({| Director.dice := Director.dice (fst Sample.finished);
           Director.ruleset := PNone;
           Director.party := Some [];
           Director.story := Some Sample.caves;
           Director.current_scene_idx := 3 |}, log))
    /\ wins log = 2%nat.
Proof.
  exact (start_then_play_through Sample.safe_load "goblin_caves.yml"
           Sample.finished Sample.caves eq_refl ltac:(discriminate)).
Defined.

Lemma empty_story_never_plays_witness :
  fst (Director.start Sample.no_scenes "empty.yml" Sample.fresh) = Returned tt
  /\ phase_of (fst (snd (Director.start Sample.no_scenes "empty.yml" Sample.fresh)))
     = Complete
  /\ snd (snd (Director.start Sample.no_scenes "empty.yml" Sample.fresh)) = []
  /\ Director.play_next (snd (Director.start Sample.no_scenes "empty.yml" Sample.fresh))
     = (Raised IndexError,
        snd (Director.start Sample.no_scenes "empty.yml" Sample.fresh)).
Proof.
  exact (empty_story_never_plays Sample.no_scenes "empty.yml" Sample.fresh
           {| Story.scenes := [] |} eq_refl eq_refl).
Defined.

Lemma reachable_never_loses_witness :
  Forall (fun e => e <> Story.LoseScreen) (snd Sample.finished).
Proof.
  exact (reachable_never_loses Sample.finished
           (reach_play_next _ (reach_play_next _ (reach_play_next _
              (reach_start _ Sample.safe_load "goblin_caves.yml"
                 (reach_init (Some 42))))))).
Defined.

Lemma loaded_story_round_trip_witness :
  Story.from_dict (Story.to_dict Sample.caves) = Returned Sample.caves.
Proof.
  exact (loaded_story_round_trip Sample.safe_load "goblin_caves.yml"
           Sample.goblin_caves Sample.caves eq_refl eq_refl eq_refl).
Defined.

Lemma any_alive_of_int_hp_witness :
  Party.any_alive [Sample.orin; Sample.mira] = Returned true
  /\ (Party.any_alive [Sample.orin; Sample.mira] = Returned true
      <-> exists h, In h [0; 7] /\ 0 < h).
Proof.
  exact (any_alive_of_int_hp [Sample.orin; Sample.mira] [0; 7] eq_refl).
Defined.

Lemma any_alive_stops_early_witness :
  Party.any_alive ([Sample.orin] ++ Sample.mira :: [Sample.ghost]) = Returned true
  /\ Party.any_alive ([Sample.orin] ++ Sample.ghost :: [Sample.mira]) = Raised TypeError.
Proof.
  assert (H : Forall (fun c => exists n, Character.hp c = PInt n /\ n <= 0)
                [Sample.orin]).
  { constructor; [| constructor]. exists 0. split; [reflexivity | discriminate]. }
  split.
  - exact (proj1 (any_alive_stops_early [Sample.orin] Sample.mira [Sample.ghost] H)
             7 eq_refl eq_refl).
  - exact (proj2 (any_alive_stops_early [Sample.orin] Sample.ghost [Sample.mira] H)
             (or_introl eq_refl)).
Defined.

Lemma snapshot_dict_round_trip_witness :
  exists gs,
    State.from_dict (PDict Sample.good_save) = Returned gs
    /\ getitem (State.to_dict gs) "rng_state"
       = Returned (PList [PInt 3; PList [PInt 1; PInt 2]; PNone])
    /\ State.from_dict (State.to_dict gs) = Returned gs.
Proof.
  eexists. split; [reflexivity |].
  match goal with
  | |- getitem (State.to_dict ?gs) _ = _ /\ _ =>
      destruct (snapshot_dict_round_trip Sample.good_save gs eq_refl eq_refl)
        as [Hget Hback]
  end.
  split; [| exact Hback].
  rewrite (Hget "rng_state"); [reflexivity |].
  right. right. right. left. reflexivity.
Defined.

Lemma apply_to_dm_stops_half_way_witness :
  State.apply_to_dm Sample.half_snapshot Sample.with_mira
  = (Raised (KeyError "scenes"),
     {| Director.dice := Director.dice Sample.with_mira;
        Director.ruleset := PNone;
        Director.party := Some [];
        Director.story := Some Sample.caves;
        Director.current_scene_idx := 0 |}).
Proof.
  exact (apply_to_dm_stops_half_way Sample.half_snapshot Sample.with_mira
           [] (KeyError "scenes") eq_refl eq_refl).
Defined.

Lemma restore_rewinds_witness :
  State.apply_to_dm (State.from_dm Sample.with_mira)
    (fst (snd (Director.play_times 2 (Sample.with_mira, []))))
  = (Returned tt, Sample.with_mira).
Proof.
  apply (restore_rewinds Sample.with_mira [] 2 Sample.orin [Sample.mira] Sample.caves);
    try reflexivity; repeat constructor.
Defined.

Lemma default_abilities_modifiers_witness :
  NoDup Models.Ability_list
  /\ (forall a, In a Models.Ability_list)
  /\ exists c,
       Models.new "Lyra" "Elf" "Rogue" 1 Models.default_abilities None = Returned c
       /\ (forall a, Models.ability_mod c a = Returned 0)
       /\ Models.initiative c = Returned 0
       /\ forall c' a,
            (In a (map fst (Models.abilities c')) -> False) ->
            Models.ability_mod c' a = Raised (KeyError (Models.Ability_value a)).
Proof.
  apply (default_abilities_modifiers "Lyra" "Elf" "Rogue" 1 None). discriminate.
Defined.
